(** * Offer-Scanner: the feed filter pipeline and the geocoding cache

    A shallow embedding of
    - [src/components/Toaster.tsx]: [getDistance], [getOfferTitle] and the
      [filteredOffers] computation of the [Feed] component;
    - [src/services/geminiService.ts]: [getFromCache], [setInCache],
      [reverseGeocode], [getLocationSuggestions], [geocodeLocation];
    - [src/types.ts]: the [Offer] union.

    Conventions of the embedding.
    - A JavaScript string is a [string] of code units below 256 (the Latin-1
      part of UTF-16); the built-ins [trim], [toLowerCase], [split],
      [includes], [parseInt] are written out on that domain.
    - A JavaScript number that is a coordinate or a distance is a real number
      ([R]); integers produced by [parseInt], day numbers and millisecond
      timestamps are in [Z].
    - A [Date] is kept at the precision the feed compares it: the number of
      the local calendar day, or invalid.
    - Code that throws, catches and mutates module state runs in a small
      state-and-exception monad over the record [World]. *)

From Stdlib Require Import ZArith Reals Lra Lia String Ascii List Bool.
From stdpp Require Import base option list gmap strings.
From Stdlib Require DecimalString DecimalZ.

Local Open Scope Z_scope.

(** ** JavaScript built-ins used by the two files *)
Module JS.

Definition code (c : ascii) : N := N_of_ascii c.

(** [WhiteSpace] and [LineTerminator] code units below 256: TAB, LF, VT, FF,
    CR, SP and NBSP. *)
Definition isWhiteSpace (c : ascii) : bool :=
  let n := code c in
  ((9 <=? n) && (n <=? 13) || (n =? 32) || (n =? 160))%N.

Definition isEmpty (s : string) : bool :=
  match s with EmptyString => true | String _ _ => false end.

Fixpoint trimStart (s : string) : string :=
  match s with
  | EmptyString => EmptyString
  | String c r => if isWhiteSpace c then trimStart r else s
  end.

Fixpoint trimEnd (s : string) : string :=
  match s with
  | EmptyString => EmptyString
  | String c r =>
      let r' := trimEnd r in
      if isWhiteSpace c && isEmpty r' then EmptyString else String c r'
  end.

(** [String.prototype.trim] *)
Definition trim (s : string) : string := trimEnd (trimStart s).

(** [String.prototype.toLowerCase] on one code unit: A-Z and the accented
    capitals 0xC0-0xDE (0xD7, the multiplication sign, excepted). *)
Definition lowerChar (c : ascii) : ascii :=
  let n := code c in
  if ((65 <=? n) && (n <=? 90)
      || (192 <=? n) && (n <=? 222) && negb (n =? 215))%N
  then ascii_of_N (n + 32) else c.

Fixpoint toLowerCase (s : string) : string :=
  match s with
  | EmptyString => EmptyString
  | String c r => String (lowerChar c) (toLowerCase r)
  end.

Fixpoint startsWith (s q : string) : bool :=
  match q, s with
  | EmptyString, _ => true
  | String _ _, EmptyString => false
  | String b q', String a s' => Ascii.eqb a b && startsWith s' q'
  end.

(** [s.includes(q)] *)
Fixpoint includes (s q : string) : bool :=
  startsWith s q ||
  match s with
  | EmptyString => false
  | String _ r => includes r q
  end.

(** [s.split(sep)] for a one-character separator. *)
Fixpoint split (sep : ascii) (s : string) : list string :=
  match s with
  | EmptyString => [EmptyString]
  | String c r =>
      if Ascii.eqb c sep then EmptyString :: split sep r
      else match split sep r with
           | [] => [String c EmptyString]
           | p :: ps => String c p :: ps
           end
  end.

(** [xs.join(sep)] *)
Fixpoint join (sep : string) (xs : list string) : string :=
  match xs with
  | [] => EmptyString
  | [x] => x
  | x :: rest => x +:+ sep +:+ join sep rest
  end.

Definition digit (c : ascii) : option Z :=
  let n := code c in
  if ((48 <=? n) && (n <=? 57))%N then Some (Z.of_N n - 48) else None.

Fixpoint digitsValue (acc : Z) (s : string) : Z :=
  match s with
  | EmptyString => acc
  | String c r =>
      match digit c with
      | Some d => digitsValue (10 * acc + d) r
      | None => acc
      end
  end.

(** [parseInt(s, 10)]; [None] is NaN.  Leading white space is skipped, one
    sign is read, then the longest run of decimal digits.  The value is the
    mathematical integer: JavaScript rounds it to a double above 2^53, which
    only happens for values far outside the range of a [Date]. *)
Definition parseInt (s : string) : option Z :=
  let s1 := trimStart s in
  let '(sign, s2) :=
    match s1 with
    | String "-"%char r => (-1, r)
    | String "+"%char r => (1, r)
    | _ => (1, s1)
    end in
  match s2 with
  | EmptyString => None
  | String c _ =>
      match digit c with
      | Some _ => Some (sign * digitsValue 0 s2)
      | None => None
      end
  end.

(** *** Dates, at day precision (ECMAScript 21.4.1) *)

Definition DayFromYear (y : Z) : Z :=
  365 * (y - 1970) + (y - 1969) / 4 - (y - 1901) / 100 + (y - 1601) / 400.

Definition InLeapYear (y : Z) : bool :=
  if y mod 4 =? 0
  then (if y mod 100 =? 0 then y mod 400 =? 0 else true)
  else false.

(** Days before the first of month [mn] (0 = January) within its year. *)
Definition DayWithinYear (leap : bool) (mn : Z) : Z :=
  let l := if leap then 1 else 0 in
  match mn with
  | 0 => 0
  | 1 => 31
  | 2 => 59 + l
  | 3 => 90 + l
  | 4 => 120 + l
  | 5 => 151 + l
  | 6 => 181 + l
  | 7 => 212 + l
  | 8 => 243 + l
  | 9 => 273 + l
  | 10 => 304 + l
  | _ => 334 + l
  end.

(** [MakeDay(year, month, date)]: months and days outside their range carry
    over. *)
Definition MakeDay (year month date : Z) : Z :=
  let ym := year + month / 12 in
  let mn := month mod 12 in
  DayFromYear ym + DayWithinYear (InLeapYear ym) mn + date - 1.

(** [MakeFullYear]: the [Date] constructor reads a year 0..99 as 19xx. *)
Definition MakeFullYear (y : Z) : Z :=
  if (0 <=? y) && (y <=? 99) then 1900 + y else y.

(** [TimeClip]: a time value beyond 8.64e15 ms, that is 10^8 days from the
    epoch, is NaN and the date is an Invalid Date.  The offset of local time
    from UTC, which moves this bound by less than a day, is left out. *)
Definition maxDay : Z := 100000000.

Definition TimeClip (day : Z) : option Z :=
  if Z.abs day <=? maxDay then Some day else None.

(** [new Date(year, month, day)]: local midnight of that day, [None] for an
    Invalid Date. *)
Definition newDate (year month day : Z) : option Z :=
  TimeClip (MakeDay (MakeFullYear year) month day).

(** [d >= today] on a [Date] and a valid [Date]: both are converted to
    numbers, and a comparison with NaN is false. *)
Definition dateGe (d : option Z) (today : Z) : bool :=
  match d with
  | Some n => today <=? n
  | None => false
  end.

End JS.


(** ** [src/types.ts] *)
Module Types.

Inductive OfferType := JOB | SERVICE | PRODUCT.

Definition OfferType_eqb (a b : OfferType) : bool :=
  match a, b with
  | JOB, JOB | SERVICE, SERVICE | PRODUCT, PRODUCT => true
  | _, _ => false
  end.

Inductive SalaryType := SALARY_PER_HOUR | SALARY_PER_MONTH | SALARY_PER_PROJECT.

Inductive PriceType := PRICE_PER_HOUR | PRICE_PER_PROJECT | PRICE_FIXED.

Record Location := {
  address : string;
  lat : R;
  lng : R
}.

Record BaseOffer := {
  id : string;
  scannedAt : string;
  summary : string;
  location : option Location;
  additionalDetails : option string;
  expiresAt : option string;
  applicantCount : Z
}.

Record JobOffer := {
  job_base : BaseOffer;
  jobTitle : string;
  company : string;
  responsibilities : list string;
  skills : list string;
  salary : option string;
  salaryType : option SalaryType;
  job_phone : option string;
  job_email : option string
}.

Record ServiceOffer := {
  service_base : BaseOffer;
  serviceName : string;
  provider : option string;
  service_price : option string;
  priceType : option PriceType;
  service_phone : option string;
  service_email : option string
}.

Record ProductOffer := {
  product_base : BaseOffer;
  productName : string;
  brand : option string;
  product_price : string;
  condition : option string;
  product_phone : option string;
  product_email : option string
}.

(** [Offer = JobOffer | ServiceOffer | ProductOffer]; the constructor is the
    [type] discriminant. *)
Inductive Offer :=
  | Job (o : JobOffer)
  | Service (o : ServiceOffer)
  | Product (o : ProductOffer).

Definition base (offer : Offer) : BaseOffer :=
  match offer with
  | Job o => job_base o
  | Service o => service_base o
  | Product o => product_base o
  end.

Definition type (offer : Offer) : OfferType :=
  match offer with
  | Job _ => JOB
  | Service _ => SERVICE
  | Product _ => PRODUCT
  end.

End Types.

(** ** [src/components/Toaster.tsx]: the feed filter *)
Module Feed.
Import Types.

(** [Math.atan2] on real arguments. *)
Definition atan2 (y x : R) : R :=
  if Rlt_dec 0 x then atan (y / x)
  else if Rlt_dec x 0 then
         (if Rle_dec 0 y then atan (y / x) + PI else atan (y / x) - PI)%R
  else if Rlt_dec 0 y then (PI / 2)%R
  else if Rlt_dec y 0 then (- PI / 2)%R
  else 0%R.

(** Haversine distance formula *)
Definition getDistance (lat1 lon1 lat2 lon2 : R) : R :=
  (let R := 6371 in
   let dLat := (lat2 - lat1) * (PI / 180) in
   let dLon := (lon2 - lon1) * (PI / 180) in
   let a :=
     sin (dLat / 2) * sin (dLat / 2) +
     cos (lat1 * (PI / 180)) * cos (lat2 * (PI / 180)) *
     sin (dLon / 2) * sin (dLon / 2) in
   let c := 2 * atan2 (sqrt a) (sqrt (1 - a)) in
   R * c)%R.

Definition getOfferTitle (offer : Offer) : string :=
  match offer with
  | Job o => jobTitle o
  | Service o => serviceName o
  | Product o => productName o
  end.

(** The props and state [filteredOffers] depends on, and the [today] it
    computes ([new Date()] with the time of day set to zero), as a day
    number. *)
Inductive ActiveFilter := all | only (t : OfferType).

Record LatLng := { center_lat : R; center_lng : R }.

Record FilterState := {
  today : Z;
  activeFilter : ActiveFilter;
  filterCenterPoint : option LatLng;
  searchQuery : string
}.

(** The callback of [activeOffers]. *)
Definition isActive (today : Z) (offer : Offer) : bool :=
  match expiresAt (base offer) with
  | None => true
  | Some expires =>
      if JS.isEmpty expires then true
      else
        match JS.split "-" expires with
        | [p0; p1; p2] =>
            match JS.parseInt p0, JS.parseInt p1, JS.parseInt p2 with
            | Some year, Some m, Some day =>
                let month := m - 1 in
                let expiryDate := JS.newDate year month day in
                JS.dateGe expiryDate today
            | _, _, _ => true
            end
        | _ => true
        end
  end.

Definition leR (x y : R) : bool := if Rle_dec x y then true else false.

(** The callback of the proximity filter. *)
Definition isNear (c : LatLng) (offer : Offer) : bool :=
  match location (base offer) with
  | None => false
  | Some l =>
      let distance := getDistance (center_lat c) (center_lng c) (lat l) (lng l) in
      leR distance 50
  end.

Definition orEmpty (s : option string) : string :=
  match s with Some x => x | None => EmptyString end.

(** The callback of the search filter. *)
Definition matchesQuery (lowercasedQuery : string) (offer : Offer) : bool :=
  let title := JS.toLowerCase (getOfferTitle offer) in
  let summary := JS.toLowerCase (summary (base offer)) in
  let otherDetails :=
    match location (base offer) with
    | Some l => JS.toLowerCase (address l) +:+ " "
    | None => EmptyString
    end in
  let otherDetails :=
    otherDetails +:+
    match offer with
    | Job o => JS.toLowerCase (company o +:+ " " +:+ JS.join " " (skills o))
    | Service o => JS.toLowerCase (orEmpty (provider o))
    | Product o => JS.toLowerCase (orEmpty (brand o))
    end in
  JS.includes title lowercasedQuery
  || JS.includes summary lowercasedQuery
  || JS.includes otherDetails lowercasedQuery.

(** The four steps of [filteredOffers], in the order of the source. *)
Definition activeOffers (today : Z) (offers : list Offer) : list Offer :=
  List.filter (isActive today) offers.

Definition typeStage (f : ActiveFilter) (filtered : list Offer) : list Offer :=
  match f with
  | all => filtered
  | only t => List.filter (fun offer => OfferType_eqb (type offer) t) filtered
  end.

Definition proximityStage (c : option LatLng) (filtered : list Offer)
  : list Offer :=
  match c with
  | Some p => List.filter (isNear p) filtered
  | None => filtered
  end.

Definition textStage (searchQuery : string) (filtered : list Offer)
  : list Offer :=
  if negb (JS.isEmpty (JS.trim searchQuery)) then
    let lowercasedQuery := JS.toLowerCase searchQuery in
    List.filter (matchesQuery lowercasedQuery) filtered
  else filtered.

Definition filteredOffers (st : FilterState) (offers : list Offer)
  : list Offer :=
  let filtered := activeOffers (today st) offers in
  let filtered := typeStage (activeFilter st) filtered in
  let filtered := proximityStage (filterCenterPoint st) filtered in
  let filtered := textStage (searchQuery st) filtered in
  filtered.

End Feed.

(** ** [src/services/geminiService.ts]: the two-tier cache and the lookups *)
Module GeminiService.

(** *** Values *)

(** A JavaScript value that [JSON.parse] can produce. *)
#[local] Set Warnings "-register-all".
Inductive Json :=
  | JNull
  | JBool (b : bool)
  | JNum (x : R)
  | JStr (s : string)
  | JArr (xs : list Json)
  | JObj (fields : list (string * Json)).

(** [if (v)]: the values that are not falsy. *)
Definition truthy (v : Json) : bool :=
  match v with
  | JNull => false
  | JBool b => b
  | JNum x => if Req_dec_T x 0 then false else true
  | JStr s => negb (JS.isEmpty s)
  | JArr _ | JObj _ => true
  end.

(** [typeof v === 'number'] *)
Definition isNumber (v : option Json) : bool :=
  match v with
  | Some (JNum _) => true
  | _ => false
  end.

(** The last binding of a name wins, as in [JSON.parse]. *)
Fixpoint field (name : string) (fields : list (string * Json)) : option Json :=
  match fields with
  | [] => None
  | (k, v) :: rest =>
      match field name rest with
      | Some w => Some w
      | None => if String.eqb k name then Some v else None
      end
  end.

(** [a || b] on a property that may be [undefined] ([None]). *)
Definition orElse (a : option Json) (b : Json) : Json :=
  match a with
  | Some v => if truthy v then v else b
  | None => b
  end.

(** *** The world the module runs in *)

Inductive Exn :=
  | TypeError
  | SyntaxError
  | QuotaExceededError
  | SecurityError
  | ServiceError.

Inductive Result (A : Type) :=
  | Normal (a : A)
  | Throw (e : Exn).
Arguments Normal {A} a.
Arguments Throw {A} e.

Record CacheEntry := { value : Json; expiry : Z }.

(** What a key of [localStorage] holds: the text [JSON.stringify] makes of an
    entry [{ value, expiry }], identified with that entry, or some other
    non-empty text that [JSON.parse] rejects. *)
Inductive Stored :=
  | StoredEntry (e : CacheEntry)
  | StoredGarbage.

(** [localStorage]: its items, whether it is full ([setItem] throws) and
    whether access to it is denied (every method throws). *)
Record Storage := {
  items : gmap string Stored;
  full : bool;
  denied : bool
}.

(** The requests [ai.models.generateContent] is called with. *)
Inductive AiRequest :=
  | ReverseGeocodeRequest (lat lng : R)
  | SuggestionsRequest (query : string)
  | GeocodeRequest (address : string).

(** What one request comes to: the promise is rejected or the text of the
    response is missing or not JSON (all of which throw inside the caller's
    [try]), or the text parses to a value. *)
Inductive AiOutcome :=
  | AiFails
  | AiJson (parsed : Json).

Record World := {
  cache : gmap string CacheEntry;
  localStorage : Storage;
  aiCalls : list AiRequest;
  console : list string
}.

Definition with_cache (c : gmap string CacheEntry) (w : World) : World :=
  {| cache := c; localStorage := localStorage w;
     aiCalls := aiCalls w; console := console w |}.

Definition with_items (m : gmap string Stored) (w : World) : World :=
  {| cache := cache w;
     localStorage := {| items := m; full := full (localStorage w);
                        denied := denied (localStorage w) |};
     aiCalls := aiCalls w; console := console w |}.

Definition with_aiCalls (l : list AiRequest) (w : World) : World :=
  {| cache := cache w; localStorage := localStorage w;
     aiCalls := l; console := console w |}.

Definition with_console (l : list string) (w : World) : World :=
  {| cache := cache w; localStorage := localStorage w;
     aiCalls := aiCalls w; console := l |}.

(** *** State and exceptions *)

Definition M (A : Type) : Type := World -> Result A * World.

#[export] Instance M_ret : MRet M := fun A a w => (Normal a, w).

#[export] Instance M_bind : MBind M := fun A B f m w =>
  match m w with
  | (Normal a, w') => f a w'
  | (Throw e, w') => (Throw e, w')
  end.

Definition throw {A} (e : Exn) : M A := fun w => (Throw e, w).

(** [try { body } catch (error) { handler }] *)
Definition tryCatch {A} (body : M A) (handler : Exn -> M A) : M A := fun w =>
  match body w with
  | (Normal a, w') => (Normal a, w')
  | (Throw e, w') => handler e w'
  end.

Definition cache_get (key : string) : M (option CacheEntry) := fun w =>
  (Normal (cache w !! key), w).

Definition cache_set (key : string) (e : CacheEntry) : M unit := fun w =>
  (Normal tt, with_cache (<[key := e]> (cache w)) w).

Definition cache_delete (key : string) : M unit := fun w =>
  (Normal tt, with_cache (delete key (cache w)) w).

Definition localStorage_getItem (key : string) : M (option Stored) := fun w =>
  if denied (localStorage w) then (Throw SecurityError, w)
  else (Normal (items (localStorage w) !! key), w).

Definition localStorage_setItem (key : string) (data : Stored) : M unit :=
  fun w =>
  if denied (localStorage w) then (Throw SecurityError, w)
  else if full (localStorage w) then (Throw QuotaExceededError, w)
  else (Normal tt, with_items (<[key := data]> (items (localStorage w))) w).

Definition localStorage_removeItem (key : string) : M unit := fun w =>
  if denied (localStorage w) then (Throw SecurityError, w)
  else (Normal tt, with_items (delete key (items (localStorage w))) w).

Definition JSON_stringify (e : CacheEntry) : Stored := StoredEntry e.

Definition JSON_parse (data : Stored) : M CacheEntry :=
  match data with
  | StoredEntry e => mret e
  | StoredGarbage => throw SyntaxError
  end.

Definition console_error (message : string) : M unit := fun w =>
  (Normal tt, with_console (console w ++ [message]) w).

(** [parsed.name]: reading a property of [null] throws; a value that is not
    an object has none of the names read here. *)
Definition getProp (parsed : Json) (name : string) : M (option Json) :=
  match parsed with
  | JNull => throw TypeError
  | JObj fields => mret (field name fields)
  | _ => mret None
  end.

(** *** The cache *)

Definition CACHE_TTL : Z := 5 * 60 * 1000.
Definition LOCAL_STORAGE_CACHE_PREFIX : string := "gemini_api_cache_".

(** The [try] block of [getFromCache]; [Some v] is its [return v]. *)
Definition readLocalStorage (key : string) (now : Z) : M (option Json) :=
  tryCatch
    (localData ← localStorage_getItem (LOCAL_STORAGE_CACHE_PREFIX +:+ key);
     match localData with
     | Some data =>
         localEntry ← JSON_parse data;
         if now <? expiry localEntry then
           cache_set key {| value := value localEntry;
                            expiry := expiry localEntry |};;
           mret (Some (value localEntry))
         else
           localStorage_removeItem (LOCAL_STORAGE_CACHE_PREFIX +:+ key);;
           mret None
     | None => mret None
     end)
    (fun error =>
       console_error "Error reading from localStorage cache";;
       mret None).

(** [getFromCache(key)]; [JNull] is [null].  Both readings of [Date.now()]
    in one call give [now]. *)
Definition getFromCache (key : string) (now : Z) : M Json :=
  entry ← cache_get key;
  match entry with
  | Some e =>
      if now <? expiry e then mret (value e)
      else
        cache_delete key;;
        found ← readLocalStorage key now;
        mret (default JNull found)
  | None =>
      found ← readLocalStorage key now;
      mret (default JNull found)
  end.

(** [setInCache(key, value)] at time [now = Date.now()]. *)
Definition setInCache (key : string) (v : Json) (now : Z) : M unit :=
  let expiry := now + CACHE_TTL in
  cache_set key {| value := v; expiry := expiry |};;
  tryCatch
    (let localEntry := {| value := v; expiry := expiry |} in
     localStorage_setItem (LOCAL_STORAGE_CACHE_PREFIX +:+ key)
                          (JSON_stringify localEntry))
    (fun error => console_error "Error writing to localStorage cache").

(** *** The lookups

    Each lookup is an [async] function with one [await]: [now] is the time
    at which it is called and [resumed] the time at which the response
    arrives.  A call runs to its end before the next one starts. *)
Section Lookups.

(** The service: what it answers to a request, given the requests made so
    far. *)
Variable gemini : list AiRequest -> AiRequest -> AiOutcome.

(** [x.toFixed(2)] *)
Variable toFixed2 : R -> string.

(** [await ai.models.generateContent(...)], then [response.text.trim()] and
    [JSON.parse]. *)
Definition generateContent (request : AiRequest) : M Json := fun w =>
  let w' := with_aiCalls (aiCalls w ++ [request]) w in
  match gemini (aiCalls w) request with
  | AiFails => (Throw ServiceError, w')
  | AiJson parsed => (Normal parsed, w')
  end.

Definition reverseGeocodeKey (lat lng : R) : string :=
  "reverse-geocode:" +:+ toFixed2 lat +:+ "," +:+ toFixed2 lng.

Definition reverseGeocode (lat lng : R) (now resumed : Z) : M Json :=
  let cacheKey := reverseGeocodeKey lat lng in
  cached ← getFromCache cacheKey now;
  if truthy cached then mret cached
  else
    tryCatch
      (parsed ← generateContent (ReverseGeocodeRequest lat lng);
       name ← getProp parsed "locationName";
       let locationName := orElse name JNull in
       (if truthy locationName
        then setInCache cacheKey locationName resumed
        else mret tt);;
       mret locationName)
      (fun error =>
         console_error "Error reverse geocoding with Gemini:";;
         mret JNull).

Definition suggestionsKey (query : string) : string :=
  "suggestions:" +:+ JS.toLowerCase query.

Definition getLocationSuggestions (query : string) (now resumed : Z)
  : M Json :=
  if (String.length (JS.trim query) <? 3)%nat then mret (JArr [])
  else
    let cacheKey := suggestionsKey query in
    cached ← getFromCache cacheKey now;
    if truthy cached then mret cached
    else
      tryCatch
        (parsed ← generateContent (SuggestionsRequest query);
         found ← getProp parsed "suggestions";
         let suggestions := orElse found (JArr []) in
         setInCache cacheKey suggestions resumed;;
         mret suggestions)
        (fun error =>
           console_error "Error getting location suggestions from Gemini:";;
           mret (JArr [])).

Definition geocodeKey (address : string) : string :=
  "geocode:" +:+ JS.toLowerCase address.

Definition geocodeLocation (address : string) (now resumed : Z) : M Json :=
  if JS.isEmpty (JS.trim address) then mret JNull
  else
    let cacheKey := geocodeKey address in
    cached ← getFromCache cacheKey now;
    if truthy cached then mret cached
    else
      tryCatch
        (parsed ← generateContent (GeocodeRequest address);
         plat ← getProp parsed "lat";
         if isNumber plat then
           plng ← getProp parsed "lng";
           if isNumber plng then
             setInCache cacheKey parsed resumed;;
             mret parsed
           else mret JNull
         else mret JNull)
        (fun error =>
           console_error "Error geocoding location with Gemini:";;
           mret JNull).

End Lookups.

End GeminiService.

(** * Further parts of the application *)

(** ** More JavaScript built-ins *)
Module JSMore.

(** [String(n)] for an integer [n] (below 10^21 in absolute value, where
    JavaScript still prints every digit). *)
Definition numberToString (n : Z) : string :=
  DecimalString.NilEmpty.string_of_int (Z.to_int n).







End JSMore.

(** ** [src/hooks/useToast.tsx] and the [Toaster] component *)
Module Toasts.

Inductive ToastType := success | error | info.

Record Toast := {
  id : Z;
  message : string;
  type : ToastType
}.

Record ToastOptions := {
  opt_message : string;
  opt_type : option ToastType;
  opt_duration : option Z
}.

(** The module variable [toastCount] and the state of the provider. *)
Record ToastState := {
  toasts : list Toast;
  toastCount : Z
}.

Definition initial : ToastState := {| toasts := []; toastCount := 0 |}.

(** The updater of [removeToast(id)]. *)
Definition removeToast (id' : Z) (prevToasts : list Toast) : list Toast :=
  List.filter (fun toast => negb (id toast =? id')) prevToasts.

(** [toast(options)]; the timer it arms runs [removeToast] of the new id
    after the duration, 4000 ms by default. *)
Definition toast (options : ToastOptions) (st : ToastState) : ToastState :=
  let type := default info (opt_type options) in
  let id := toastCount st in
  {| toasts := toasts st ++ [{| id := id; message := opt_message options;
                                type := type |}];
     toastCount := toastCount st + 1 |}.

Definition dismiss (id' : Z) (st : ToastState) : ToastState :=
  {| toasts := removeToast id' (toasts st); toastCount := toastCount st |}.

(** [toasts.slice(0, 3)]: the toasts the [Toaster] renders. *)
Definition shownToasts (st : ToastState) : list Toast :=
  take 3 (toasts st).

End Toasts.

(** ** [src/App.tsx]: the offers of the user and the saved ones *)
Module App.
Import Types.

Record User := { email : string }.

Inductive AppView := FEED | NEW_OFFER | PROFILE.

Record AppState := {
  offers : list Offer;
  currentView : AppView;
  currentUser : option User;
  savedOfferIds : gset string;
  toastState : Toasts.ToastState
}.

Definition say (message : string) (type : Toasts.ToastType)
    (st : Toasts.ToastState) : Toasts.ToastState :=
  Toasts.toast {| Toasts.opt_message := message;
                  Toasts.opt_type := Some type;
                  Toasts.opt_duration := None |} st.

Definition toggleSaveOffer (offerId : string) (st : AppState) : AppState :=
  match currentUser st with
  | None =>
      {| offers := offers st;
         currentView := PROFILE;
         currentUser := currentUser st;
         savedOfferIds := savedOfferIds st;
         toastState :=
           say "Please log in to save offers." Toasts.error (toastState st) |}
  | Some _ =>
      if decide (offerId ∈ savedOfferIds st) then
        {| offers := offers st;
           currentView := currentView st;
           currentUser := currentUser st;
           savedOfferIds := savedOfferIds st ∖ {[offerId]};
           toastState :=
             say "Offer removed from saved." Toasts.info (toastState st) |}
      else
        {| offers := offers st;
           currentView := currentView st;
           currentUser := currentUser st;
           savedOfferIds := savedOfferIds st ∪ {[offerId]};
           toastState := say "Offer saved!" Toasts.success (toastState st) |}
  end.

(** [{ ...newOfferData, id, scannedAt, applicantCount }] *)
Definition withIdentity (id' scannedAt' : string) (count : Z)
    (b : BaseOffer) : BaseOffer :=
  {| id := id'; scannedAt := scannedAt'; summary := summary b;
     location := location b; additionalDetails := additionalDetails b;
     expiresAt := expiresAt b; applicantCount := count |}.

Definition identified (id' scannedAt' : string) (count : Z)
    (newOfferData : Offer) : Offer :=
  match newOfferData with
  | Job o =>
      Job {| job_base := withIdentity id' scannedAt' count (job_base o);
             jobTitle := jobTitle o; company := company o;
             responsibilities := responsibilities o; skills := skills o;
             salary := salary o; salaryType := salaryType o;
             job_phone := job_phone o; job_email := job_email o |}
  | Service o =>
      Service {| service_base :=
                   withIdentity id' scannedAt' count (service_base o);
                 serviceName := serviceName o; provider := provider o;
                 service_price := service_price o; priceType := priceType o;
                 service_phone := service_phone o;
                 service_email := service_email o |}
  | Product o =>
      Product {| product_base :=
                   withIdentity id' scannedAt' count (product_base o);
                 productName := productName o; brand := brand o;
                 product_price := product_price o; condition := condition o;
                 product_phone := product_phone o;
                 product_email := product_email o |}
  end.

(** [`offer-${Date.now()}`] *)
Definition offerId (now : Z) : string :=
  "offer-" +:+ JSMore.numberToString now.

(** [addOffer(newOfferData)] at time [now = Date.now()]; [isoNow] is
    [new Date().toISOString()] and [drawn] is
    [Math.floor(Math.random() * 20)]. *)
Definition addOffer (newOfferData : Offer) (now : Z) (isoNow : string)
    (drawn : Z) (st : AppState) : AppState :=
  match currentUser st with
  | None =>
      {| offers := offers st;
         currentView := PROFILE;
         currentUser := currentUser st;
         savedOfferIds := savedOfferIds st;
         toastState :=
           say "Please log in to add an offer." Toasts.error (toastState st) |}
  | Some _ =>
      let newOffer := identified (offerId now) isoNow drawn newOfferData in
      {| offers := newOffer :: offers st;
         currentView := FEED;
         currentUser := currentUser st;
         savedOfferIds := savedOfferIds st;
         toastState :=
           say "Offer successfully created!" Toasts.success (toastState st) |}
  end.

(** The [savedOffers] memo. *)
Definition savedOffers (st : AppState) : list Offer :=
  List.filter (fun offer => bool_decide (id (base offer) ∈ savedOfferIds st))
    (offers st).

End App.

(** ** The offer card ([OfferCard], in [src/components/JobCardSkeleton.tsx]) *)
Module OfferCard.
Import Types.

(** The values of the enums [SalaryType] and [PriceType]. *)
Definition salaryTypeText (t : SalaryType) : string :=
  match t with
  | SALARY_PER_HOUR => "Per Hour"
  | SALARY_PER_MONTH => "Per Month"
  | SALARY_PER_PROJECT => "Per Project"
  end.

Definition priceTypeText (t : PriceType) : string :=
  match t with
  | PRICE_PER_HOUR => "Per Hour"
  | PRICE_PER_PROJECT => "Per Project"
  | PRICE_FIXED => "Fixed Price"
  end.

(** [s ? s : undefined] on an optional string: the empty string is falsy. *)
Definition truthyText (s : option string) : option string :=
  match s with
  | Some x => if JS.isEmpty x then None else Some x
  | None => None
  end.

Inductive Detail :=
  | DetailList (items : list string)
  | DetailText (text : option string).

(** What [getOfferPresentation] returns; [icon] is the name of the icon
    component and the colour class it is given. *)
Record Presentation := {
  icon : string * string;
  iconBg : string;
  title : string;
  subtitle : option string;
  location : option string;
  tags : list string;
  tagColor : string;
  priceInfo : option string;
  details : list (string * Detail)
}.

(** [`${amount}${unit ? ` (${unit})` : ''}`] when [amount] is truthy. *)
Definition amountText (amount : option string) (unit : option string)
  : option string :=
  match truthyText amount with
  | Some a =>
      Some (a +:+ match unit with
                  | Some u => " (" +:+ u +:+ ")"
                  | None => EmptyString
                  end)
  | None => None
  end.

Definition getOfferPresentation (offer : Offer) : Presentation :=
  match offer with
  | Job o =>
      let salaryText :=
        amountText (salary o) (option_map salaryTypeText (salaryType o)) in
      {| icon := ("BriefcaseIcon", "h-6 w-6 text-blue-600");
         iconBg := "bg-blue-100";
         title := jobTitle o;
         subtitle := Some (company o);
         location := option_map address (Types.location (job_base o));
         tags := skills o;
         tagColor := "blue";
         priceInfo := salaryText;
         details := [("Responsibilities", DetailList (responsibilities o));
                     ("Skills", DetailList (skills o));
                     ("Phone", DetailText (job_phone o));
                     ("Email", DetailText (job_email o))] |}
  | Service o =>
      let priceText :=
        amountText (service_price o)
                   (option_map priceTypeText (priceType o)) in
      {| icon := ("WrenchScrewdriverIcon", "h-6 w-6 text-green-600");
         iconBg := "bg-green-100";
         title := serviceName o;
         subtitle := provider o;
         location := option_map address (Types.location (service_base o));
         tags := match truthyText (service_price o) with
                 | Some p => [p]
                 | None => []
                 end;
         tagColor := "green";
         priceInfo := priceText;
         details := [("Phone", DetailText (service_phone o));
                     ("Email", DetailText (service_email o))] |}
  | Product o =>
      {| icon := ("TagIcon", "h-6 w-6 text-purple-600");
         iconBg := "bg-purple-100";
         title := productName o;
         subtitle := brand o;
         location := option_map address (Types.location (product_base o));
         tags := match truthyText (condition o) with
                 | Some c => [c]
                 | None => []
                 end;
         tagColor := "purple";
         priceInfo := Some (product_price o);
         details := [("Condition", DetailText (condition o));
                     ("Phone", DetailText (product_phone o));
                     ("Email", DetailText (product_email o))] |}
  end.



(** The texts on the front of the card: title, subtitle, summary,
    location, the first four tags and the price, each shown when it is
    truthy. *)
Record CardFront := {
  front_title : string;
  front_subtitle : option string;
  front_summary : string;
  front_location : option string;
  front_tags : list string;
  front_price : option string
}.

Definition cardFront (offer : Offer) : CardFront :=
  let presentation := getOfferPresentation offer in
  {| front_title := title presentation;
     front_subtitle := truthyText (subtitle presentation);
     front_summary := summary (base offer);
     front_location := truthyText (location presentation);
     front_tags := take 4 (tags presentation);
     front_price := truthyText (priceInfo presentation) |}.

End OfferCard.

(** ** [ApplicantIndicator] *)
Module ApplicantIndicator.

Definition APPLICANT_INITIALS : list (string * string) :=
  [("JD", "bg-blue-200"); ("AS", "bg-green-200");
   ("MG", "bg-purple-200"); ("RK", "bg-orange-200")].

(** What the component renders: the invitation to apply, or the avatars,
    the bubble of the remaining count and the label. *)
Inductive View :=
  | BeTheFirst
  | Applicants (avatars : list (string * string)) (more : option Z)
               (label : string).

(** The avatar of position [index]. *)
Definition avatar (index : nat) : string * string :=
  nth (index mod length APPLICANT_INITIALS) APPLICANT_INITIALS
      (EmptyString, EmptyString).

Definition render (count : Z) : View :=
  if count =? 0 then BeTheFirst
  else
    let avatarsToShow := Z.min count 3 in
    let remainingCount := count - avatarsToShow in
    Applicants
      (map avatar (seq 0 (Z.to_nat avatarsToShow)))
      (if 0 <? remainingCount then Some remainingCount else None)
      (JSMore.numberToString count +:+ " "
       +:+ (if count =? 1 then "applicant" else "applicants")).

End ApplicantIndicator.

(** ** The list fields of the form ([src/components/OfferForm.tsx]) *)
Module OfferForm.

(** An entry of [skills] or [responsibilities]: a string, or [undefined]
    where an assignment beyond the end left a hole. *)
Definition Entry := option string.

Inductive ListField := skillsField | responsibilitiesField.

(** The two list fields of [formData]. *)
Record FormLists := {
  skills : list Entry;
  responsibilities : list Entry
}.

Definition getField (name : ListField) (prev : FormLists) : list Entry :=
  match name with
  | skillsField => skills prev
  | responsibilitiesField => responsibilities prev
  end.

(** [{ ...prev, [name]: list }] *)
Definition setField (name : ListField) (items : list Entry)
    (prev : FormLists) : FormLists :=
  match name with
  | skillsField =>
      {| skills := items; responsibilities := responsibilities prev |}
  | responsibilitiesField =>
      {| skills := skills prev; responsibilities := items |}
  end.

(** [initialFormData] *)
Definition initialFormData : FormLists :=
  {| skills := [Some EmptyString]; responsibilities := [Some EmptyString] |}.

(** [list[index] = value] on an array, for an integer [index]: inside the
    array the entry is replaced, beyond its end the array grows and the
    positions in between are holes, and a negative index is no position of
    the array. *)
Definition assignIndex (index : Z) (value : string) (items : list Entry)
  : list Entry :=
  if index <? 0 then items
  else if index <? Z.of_nat (length items) then
    <[Z.to_nat index := Some value]> items
  else
    items ++ replicate (Z.to_nat index - length items)%nat None
          ++ [Some value].

(** [list.splice(index, 1)]: a negative [index] counts from the end, and
    nothing is removed from the end on. *)
Definition splice1 (index : Z) (items : list Entry) : list Entry :=
  let len := Z.of_nat (length items) in
  let start := if index <? 0 then Z.max (len + index) 0 else Z.min index len in
  delete (Z.to_nat start) items.

Definition handleArrayChange (name : ListField) (index : Z) (value : string)
    (prev : FormLists) : FormLists :=
  setField name (assignIndex index value (getField name prev)) prev.

Definition addArrayItem (name : ListField) (prev : FormLists) : FormLists :=
  setField name (getField name prev ++ [Some EmptyString]) prev.

Definition removeArrayItem (name : ListField) (index : Z) (prev : FormLists)
  : FormLists :=
  if (length (getField name prev) <=? 1)%nat then prev
  else setField name (splice1 index (getField name prev)) prev.

(** [handleTypeChange]: the form starts over. *)
Definition handleTypeChange (prev : FormLists) : FormLists := initialFormData.

(** [data.skills?.length ? data.skills : ['']] on a list that the scan may
    have left out. *)
Definition scannedList (scanned : option (list Entry)) : list Entry :=
  match scanned with
  | Some items =>
      if (length items =? 0)%nat then [Some EmptyString] else items
  | None => [Some EmptyString]
  end.

Definition handleScanComplete (scannedSkills scannedResponsibilities
    : option (list Entry)) (prev : FormLists) : FormLists :=
  {| skills := scannedList scannedSkills;
     responsibilities := scannedList scannedResponsibilities |}.

End OfferForm.

(** * The vocabulary of the properties *)

(** ** Strings *)

(** A string made of white space only. *)
Fixpoint allWhiteSpace (s : string) : Prop :=
  match s with
  | EmptyString => True
  | String c r => JS.isWhiteSpace c = true /\ allWhiteSpace r
  end.

(** [q] occurs in [s]. *)
Definition isSubstringOf (q s : string) : Prop :=
  exists pre post, s = pre +:+ q +:+ post.

(** ** The feed filter *)
Section FeedVocabulary.
Import Types Feed.

(** The quantity [a] of [getDistance]. *)
Definition haversine (lat1 lon1 lat2 lon2 : R) : R :=
  (sin ((lat2 - lat1) * (PI / 180) / 2) * sin ((lat2 - lat1) * (PI / 180) / 2) +
   cos (lat1 * (PI / 180)) * cos (lat2 * (PI / 180)) *
   sin ((lon2 - lon1) * (PI / 180) / 2) * sin ((lon2 - lon1) * (PI / 180) / 2))%R.

(** The proximity stage as the specification words it: the offer has a
    location, at most 50 km from the center point. *)
Definition withinRadius (c : LatLng) (offer : Offer) : Prop :=
  exists l, location (base offer) = Some l /\
    (getDistance (center_lat c) (center_lng c) (lat l) (lng l) <= 50)%R.

(** The text stage as the specification words it.  The type-specific
    fields: company plus space-joined skills, provider, brand. *)
Definition typeSpecificFields (offer : Offer) : string :=
  match offer with
  | Job o => company o +:+ " " +:+ JS.join " " (skills o)
  | Service o => orEmpty (provider o)
  | Product o => orEmpty (brand o)
  end.

(** The location address, when there is one, then the type-specific
    fields. *)
Definition addressAndFields (offer : Offer) : string :=
  match location (base offer) with
  | Some l => address l +:+ " " +:+ typeSpecificFields offer
  | None => typeSpecificFields offer
  end.

Definition textMatches (query : string) (offer : Offer) : Prop :=
  let q := JS.toLowerCase query in
  isSubstringOf q (JS.toLowerCase (getOfferTitle offer)) \/
  isSubstringOf q (JS.toLowerCase (summary (base offer))) \/
  isSubstringOf q (JS.toLowerCase (addressAndFields offer)).

(** One predicate per stage, and their conjunction. *)
Definition typeKeeps (f : ActiveFilter) (offer : Offer) : bool :=
  match f with
  | all => true
  | only t => OfferType_eqb (type offer) t
  end.

Definition proximityKeeps (c : option LatLng) (offer : Offer) : bool :=
  match c with
  | Some p => isNear p offer
  | None => true
  end.

Definition textKeeps (query : string) (offer : Offer) : bool :=
  if JS.isEmpty (JS.trim query) then true
  else matchesQuery (JS.toLowerCase query) offer.

Definition keeps (st : FilterState) (offer : Offer) : bool :=
  isActive (today st) offer
  && typeKeeps (activeFilter st) offer
  && proximityKeeps (filterCenterPoint st) offer
  && textKeeps (searchQuery st) offer.

(** Sample offers. *)
Definition sampleBase (expires : option string) : BaseOffer :=
  {| id := "1"; scannedAt := "2024-06-01T00:00:00.000Z";
     summary := "Line cook wanted"; location := None;
     additionalDetails := None; expiresAt := expires; applicantCount := 0 |}.

Definition jobExpiring (expires : string) : Offer :=
  Job {| job_base := sampleBase (Some expires);
         jobTitle := "Cook"; company := "Acme Corp"; responsibilities := [];
         skills := ["grill"; "prep"]; salary := None; salaryType := None;
         job_phone := None; job_email := None |}.

Definition acmeJob : Offer := jobExpiring "2099-01-01".

Definition bicycleAt (place : option Location) : Offer :=
  Product {| product_base :=
               {| id := "2"; scannedAt := "2024-06-01T00:00:00.000Z";
                  summary := "Road bike"; location := place;
                  additionalDetails := None; expiresAt := None;
                  applicantCount := 0 |};
             productName := "Bicycle"; brand := None; product_price := "50";
             condition := Some "used"; product_phone := None;
             product_email := None |}.

Definition plainProduct : Offer := bicycleAt None.

Definition marketStreet : Location :=
  {| address := "Market St"; lat := 40%R; lng := (-75)%R |}.

Definition philadelphia : LatLng :=
  {| center_lat := 40%R; center_lng := (-75)%R |}.

(** 2024-06-01 *)
Definition june1st2024 : Z := 19875.

End FeedVocabulary.

(** ** The cache and the lookups *)
Section CacheVocabulary.
Import GeminiService.

(** The durable store takes writes and reads. *)
Definition working (s : Storage) : Prop := full s = false /\ denied s = false.

(** [setItem] throws. *)
Definition writeFails (s : Storage) : Prop := full s = true \/ denied s = true.

(** The key of the durable tier for a key of the cache. *)
Definition storedKey (key : string) : string :=
  LOCAL_STORAGE_CACHE_PREFIX +:+ key.

Definition entryOf (v : Json) (now : Z) : CacheEntry :=
  {| value := v; expiry := now + CACHE_TTL |}.

(** The in-memory tier has no live entry for [key] at time [now]. *)
Definition memoryMiss (key : string) (now : Z) (w : World) : Prop :=
  forall e, cache w !! key = Some e -> expiry e <= now.

(** What [getFromCache] does to the in-memory tier before it turns to the
    durable tier. *)
Definition purged (key : string) (w : World) : World :=
  match cache w !! key with
  | Some _ => with_cache (delete key (cache w)) w
  | None => w
  end.



(** The world once [request] has been sent. *)
Definition asked (request : AiRequest) (w : World) : World :=
  with_aiCalls (aiCalls w ++ [request]) w.

(** The non-null location name an outcome carries, if any. *)
Definition locationNameIn (o : AiOutcome) : option Json :=
  match o with
  | AiJson (JObj fields) =>
      match field "locationName" fields with
      | Some name => if truthy name then Some name else None
      | None => None
      end
  | _ => None
  end.

(** The response an outcome carries when its [lat] and [lng] are numbers. *)
Definition coordinatesIn (o : AiOutcome) : option Json :=
  match o with
  | AiJson (JObj fields) =>
      if isNumber (field "lat" fields) && isNumber (field "lng" fields)
      then Some (JObj fields) else None
  | _ => None
  end.

(** The suggestions an outcome carries: the [suggestions] of the response,
    or the empty list when it has none; nothing when the request fails or
    the response is [null]. *)
Definition suggestionsIn (o : AiOutcome) : option Json :=
  match o with
  | AiFails => None
  | AiJson JNull => None
  | AiJson (JObj fields) => Some (orElse (field "suggestions" fields) (JArr []))
  | AiJson _ => Some (JArr [])
  end.

(** Every value held by either tier is truthy: the lookups store nothing
    else. *)
Definition valuesTruthy (w : World) : Prop :=
  (forall k e, cache w !! k = Some e -> truthy (value e) = true)
  /\ (forall k e, items (localStorage w) !! k = Some (StoredEntry e) ->
        truthy (value e) = true).

(** Neither tier can answer a [get(key)], now or later. *)
Definition misses (key : string) (w : World) : Prop :=
  cache w !! key = None
  /\ (denied (localStorage w) = true
      \/ items (localStorage w) !! storedKey key = None
      \/ items (localStorage w) !! storedKey key = Some StoredGarbage).

Variable gemini : list AiRequest -> AiRequest -> AiOutcome.

(** What the lookups share: [lookup] answers from the cache when it can;
    otherwise it sends [request], stores and returns the [answer] the
    outcome carries, and returns [fallback] when it carries none. *)
Definition readsThrough (key : string) (request : AiRequest)
    (answer : AiOutcome -> option Json) (fallback : Json)
    (lookup : Z -> Z -> M Json) : Prop :=
  forall now resumed w cached w0,
    getFromCache key now w = (Normal cached, w0) ->
    if truthy cached then lookup now resumed w = (Normal cached, w0)
    else
      match answer (gemini (aiCalls w0) request) with
      | Some v =>
          truthy v = true
          /\ lookup now resumed w
             = (Normal v, snd (setInCache key v resumed (asked request w0)))
      | None =>
          exists log,
            lookup now resumed w
            = (Normal fallback, with_console log (asked request w0))
      end.

(** A failed lookup is never cached: from the world [w], whenever [lookup]
    is called,
    - it leaves the two tiers as its own [getFromCache] left them unless the
      service gave an answer, which is then the result and the entry of
      [key], with expiry [resumed + CACHE_TTL];
    - if it sent the request and the outcome carries no answer, it returns
      [null], leaves the two tiers as its [getFromCache] left them, and the
      next call, at any time, sends the request again. *)
Definition neverCachesFailure (key : string) (request : AiRequest)
    (answer : AiOutcome -> option Json) (lookup : Z -> Z -> M Json)
    (w : World) : Prop :=
  forall now resumed,
    let w0 := snd (getFromCache key now w) in
    let out := lookup now resumed w in
    ((cache (snd out) <> cache w0
      \/ localStorage (snd out) <> localStorage w0) ->
       aiCalls (snd out) = aiCalls w ++ [request]
       /\ exists v,
            answer (gemini (aiCalls w) request) = Some v
            /\ fst out = Normal v
            /\ cache (snd out) !! key
               = Some {| value := v; expiry := resumed + CACHE_TTL |})
    /\ (aiCalls (snd out) = aiCalls w ++ [request] ->
        answer (gemini (aiCalls w) request) = None ->
        fst out = Normal JNull
        /\ cache (snd out) = cache w0
        /\ localStorage (snd out) = localStorage w0
        /\ forall t t',
             aiCalls (snd (lookup t t' (snd out)))
             = aiCalls (snd out) ++ [request]).

End CacheVocabulary.

(** Sample worlds: a fresh page, and one whose storage is full; a service
    that is down; two decimals for every coordinate. *)
Definition freshWorld : GeminiService.World :=
  {| GeminiService.cache := ∅;
     GeminiService.localStorage :=
       {| GeminiService.items := ∅; GeminiService.full := false;
          GeminiService.denied := false |};
     GeminiService.aiCalls := [];
     GeminiService.console := [] |}.

Definition fullWorld : GeminiService.World :=
  {| GeminiService.cache := ∅;
     GeminiService.localStorage :=
       {| GeminiService.items := ∅; GeminiService.full := true;
          GeminiService.denied := false |};
     GeminiService.aiCalls := [];
     GeminiService.console := [] |}.

Definition serviceDown
  : list GeminiService.AiRequest -> GeminiService.AiRequest
    -> GeminiService.AiOutcome :=
  fun _ _ => GeminiService.AiFails.

Definition zeroFixed : R -> string := fun _ => "0.00".

(** * The vocabulary of the further properties *)

(** ** More on the cache and the lookups *)
Section MoreCacheVocabulary.
Import GeminiService.

Variable gemini : list AiRequest -> AiRequest -> AiOutcome.

(** A call of [lookup] that sent [request] and got an answer returns it,
    and every call of [again], a lookup on the same key, that starts less
    than [CACHE_TTL] after the answer arrived returns it too and leaves the
    world as it is: nothing is sent, read from the service or written. *)
Definition servesFromCache (request : AiRequest)
    (answer : AiOutcome -> option Json) (lookup again : Z -> Z -> M Json)
    (w : World) : Prop :=
  forall now resumed v,
    let out := lookup now resumed w in
    aiCalls (snd out) = aiCalls w ++ [request] ->
    answer (gemini (aiCalls w) request) = Some v ->
    fst out = Normal v
    /\ forall t t',
         t < resumed + CACHE_TTL -> again t t' (snd out) = (Normal v, snd out).

End MoreCacheVocabulary.


(** A service that knows one place. *)
Definition serviceUp
  : list GeminiService.AiRequest -> GeminiService.AiRequest
    -> GeminiService.AiOutcome :=
  fun _ request =>
    match request with
    | GeminiService.ReverseGeocodeRequest _ _ =>
        GeminiService.AiJson
          (GeminiService.JObj
             [("locationName", GeminiService.JStr "Paris, France")])
    | GeminiService.SuggestionsRequest _ =>
        GeminiService.AiJson (GeminiService.JObj [])
    | GeminiService.GeocodeRequest _ =>
        GeminiService.AiJson
          (GeminiService.JObj
             [("lat", GeminiService.JNum 48); ("lng", GeminiService.JNum 2)])
    end.

(** ** More on the feed filter *)
Section MoreFeedVocabulary.
Import Types Feed.

(** What the expiry stage removes: an offer whose [expiresAt] has three
    parts that [parseInt] reads, and whose [Date] is a day before [today]
    or an Invalid Date. *)
Definition removedByExpiry (today : Z) (offer : Offer) : Prop :=
  exists expires p0 p1 p2 year m day,
    expiresAt (base offer) = Some expires
    /\ JS.split "-" expires = [p0; p1; p2]
    /\ JS.parseInt p0 = Some year
    /\ JS.parseInt p1 = Some m
    /\ JS.parseInt p2 = Some day
    /\ (JS.newDate year (m - 1) day = None
        \/ exists n, JS.newDate year (m - 1) day = Some n /\ n < today).

(** The four stages of [filteredOffers], as the functions the source
    applies one after the other. *)
Definition stages (st : FilterState) : list (list Offer -> list Offer) :=
  [activeOffers (today st); typeStage (activeFilter st);
   proximityStage (filterCenterPoint st); textStage (searchQuery st)].

(** A stage that keeps or drops each offer on its own. *)
Definition isFilter (stage : list Offer -> list Offer) : Prop :=
  exists keep, forall offers, stage offers = List.filter keep offers.

(** Applies the stages of a list in its order. *)
Definition applyAll (order : list (list Offer -> list Offer))
    (offers : list Offer) : list Offer :=
  fold_left (fun filtered stage => stage filtered) order offers.

End MoreFeedVocabulary.

(** ** Toasts *)
Section ToastVocabulary.
Import Toasts.

(** What happens to the toasts: one is shown, or the timer of one (or
    anything else that calls [removeToast]) removes it. *)
Inductive ToastEvent :=
  | Shows (options : ToastOptions)
  | Removes (id : Z).

Definition toastStep (st : ToastState) (e : ToastEvent) : ToastState :=
  match e with
  | Shows options => toast options st
  | Removes i => dismiss i st
  end.

Definition afterEvents (events : list ToastEvent) : ToastState :=
  fold_left toastStep events initial.

Definition toastIds (st : ToastState) : list Z := map id (toasts st).

(** The ids in use are pairwise distinct and below the counter. *)
Definition toastsWellFormed (st : ToastState) : Prop :=
  NoDup (toastIds st)
  /\ Forall (fun i => i < toastCount st) (toastIds st).

End ToastVocabulary.

(** ** The state of the application *)
Definition loggedIn (st : App.AppState) : Prop :=
  App.currentUser st <> None.

Definition someUser : App.User := {| App.email := "ana@example.com" |}.

Definition appWith (user : option App.User) (offers : list Types.Offer)
  : App.AppState :=
  {| App.offers := offers; App.currentView := App.FEED;
     App.currentUser := user; App.savedOfferIds := ∅;
     App.toastState := Toasts.initial |}.

(** ** The offer card *)
Section CardVocabulary.
Import Types.




(** The texts of the front of the card that the search looks at: all but
    the price, and the tags of a job only. *)
Definition searchableTexts (offer : Offer) : list string :=
  let front := OfferCard.cardFront offer in
  [OfferCard.front_title front; OfferCard.front_summary front]
  ++ match OfferCard.front_subtitle front with
     | Some s => [s]
     | None => []
     end
  ++ match OfferCard.front_location front with
     | Some s => [s]
     | None => []
     end
  ++ match offer with
     | Job _ => OfferCard.front_tags front
     | _ => []
     end.


End CardVocabulary.

(** ** The form *)
Section FormVocabulary.
Import OfferForm.

(** What the user does to the list fields of the form. *)
Inductive FormEvent :=
  | Changes (name : ListField) (index : Z) (value : string)
  | Adds (name : ListField)
  | RemovesItem (name : ListField) (index : Z)
  | ChangesType
  | Scans (scannedSkills scannedResponsibilities : option (list Entry)).

Definition formStep (prev : FormLists) (e : FormEvent) : FormLists :=
  match e with
  | Changes name index value => handleArrayChange name index value prev
  | Adds name => addArrayItem name prev
  | RemovesItem name index => removeArrayItem name index prev
  | ChangesType => handleTypeChange prev
  | Scans scannedSkills scannedResponsibilities =>
      handleScanComplete scannedSkills scannedResponsibilities prev
  end.

Definition afterFormEvents (events : list FormEvent) : FormLists :=
  fold_left formStep events initialFormData.

End FormVocabulary.

(** * Properties *)

Import Types.

(** ** Strings *)
Section StringFacts.

Lemma append_cons (c : ascii) (a b : string) :
  String c a +:+ b = String c (a +:+ b).
Proof. reflexivity. Qed.

Lemma append_assoc (a b c : string) : (a +:+ b) +:+ c = a +:+ (b +:+ c).
Proof.
  induction a as [|x a IH]; [reflexivity | now rewrite !append_cons, IH].
Qed.

Lemma toLowerCase_app (a b : string) :
  JS.toLowerCase (a +:+ b) = JS.toLowerCase a +:+ JS.toLowerCase b.
Proof.
  induction a as [|x a IH]; [reflexivity|].
  rewrite append_cons. simpl. now rewrite append_cons, IH.
Qed.

Lemma startsWith_spec (s q : string) :
  JS.startsWith s q = true <-> exists post, s = q +:+ post.
Proof.
  revert s. induction q as [|b q IH]; intros s.
  - split; [intros _; now exists s | intros _; now destruct s].
  - destruct s as [|a s]; simpl.
    + split; [discriminate | intros [post H]; discriminate].
    + rewrite andb_true_iff, Ascii.eqb_eq, IH. split.
      * intros [-> [post ->]]. now exists post.
      * intros [post H]. rewrite append_cons in H. injection H as -> ->.
        split; [reflexivity | now exists post].
Qed.

(** [includes] decides the substring relation. *)
Lemma includes_spec (s q : string) :
  JS.includes s q = true <-> exists pre post, s = pre +:+ q +:+ post.
Proof.
  induction s as [|a s IH].
  - cbn [JS.includes]. rewrite orb_false_r, startsWith_spec. split.
    + intros [post H]. now exists EmptyString, post.
    + intros [pre [post H]]. destruct pre as [|x pre]; [now exists post|].
      rewrite append_cons in H. discriminate.
  - cbn [JS.includes]. rewrite orb_true_iff, startsWith_spec, IH. split.
    + intros [[post H] | [pre [post H]]].
      * now exists EmptyString, post.
      * exists (String a pre), post. now rewrite append_cons, H.
    + intros [pre [post H]]. destruct pre as [|x pre].
      * left. now exists post.
      * right. rewrite append_cons in H. injection H as -> ->.
        now exists pre, post.
Qed.

Lemma isEmpty_false (s : string) : JS.isEmpty s = false <-> s <> EmptyString.
Proof. destruct s; simpl; split; congruence. Qed.

Lemma trimEnd_empty (s : string) :
  JS.trimEnd s = EmptyString <-> allWhiteSpace s.
Proof.
  induction s as [|c s IH]; simpl; [tauto|].
  destruct (JS.isWhiteSpace c) eqn:Hc; simpl.
  - destruct (JS.trimEnd s) eqn:Hs; simpl.
    + split; [intros _; split; [reflexivity | now apply IH] | reflexivity].
    + split; [discriminate | intros [_ H]; apply IH in H; discriminate].
  - split; [discriminate | intros [H _]; discriminate].
Qed.

Lemma trimStart_allWhiteSpace (s : string) :
  allWhiteSpace (JS.trimStart s) <-> allWhiteSpace s.
Proof.
  induction s as [|c s IH]; simpl; [tauto|].
  destruct (JS.isWhiteSpace c) eqn:Hc; simpl; [|now rewrite Hc].
  rewrite IH. tauto.
Qed.

Lemma trim_empty (s : string) :
  JS.trim s = EmptyString <-> allWhiteSpace s.
Proof. unfold JS.trim. now rewrite trimEnd_empty, trimStart_allWhiteSpace. Qed.

End StringFacts.

(** ** The haversine distance *)
Section Distance.
Local Open Scope R_scope.

Lemma getDistance_haversine (lat1 lon1 lat2 lon2 : R) :
  Feed.getDistance lat1 lon1 lat2 lon2 =
  6371 * (2 * Feed.atan2 (sqrt (haversine lat1 lon1 lat2 lon2))
                         (sqrt (1 - haversine lat1 lon1 lat2 lon2))).
Proof. reflexivity. Qed.



Lemma haversine_same (lat lon : R) : haversine lat lon lat lon = 0.
Proof.
  unfold haversine.
  replace ((lat - lat) * (PI / 180) / 2) with 0 by lra.
  replace ((lon - lon) * (PI / 180) / 2) with 0 by lra.
  rewrite sin_0. ring.
Qed.

Lemma atan2_0_1 : Feed.atan2 0 1 = 0.
Proof.
  unfold Feed.atan2. destruct (Rlt_dec 0 1) as [_|H]; [|lra].
  replace (0 / 1) with 0 by lra. apply atan_0.
Qed.

Lemma getDistance_same (lat lng : R) : Feed.getDistance lat lng lat lng = 0.
Proof.
  rewrite getDistance_haversine, haversine_same.
  replace (1 - 0) with 1 by lra.
  rewrite sqrt_0, sqrt_1, atan2_0_1. ring.
Qed.



End Distance.

(** ** The feed filter *)
Section FeedFilter.
Import Feed.

Lemma filter_true {A} (l : list A) : List.filter (fun _ => true) l = l.
Proof. induction l as [|x l IH]; simpl; [reflexivity | now rewrite IH]. Qed.

Lemma filter_filter {A} (f g : A -> bool) (l : list A) :
  List.filter g (List.filter f l) = List.filter (fun x => f x && g x) l.
Proof.
  induction l as [|x l IH]; simpl; [reflexivity|].
  destruct (f x); simpl; [destruct (g x)|]; now rewrite IH.
Qed.

Lemma filter_idem {A} (f : A -> bool) (l : list A) :
  List.filter f (List.filter f l) = List.filter f l.
Proof.
  rewrite filter_filter. apply List.filter_ext. intros x. now destruct (f x).
Qed.

Lemma filter_sublist {A} (f : A -> bool) (l : list A) :
  sublist (List.filter f l) l.
Proof.
  induction l as [|x l IH]; simpl; [constructor|].
  destruct (f x); now constructor.
Qed.

Lemma typeStage_filter f l : typeStage f l = List.filter (typeKeeps f) l.
Proof. destruct f; simpl; [now rewrite filter_true | reflexivity]. Qed.

Lemma proximityStage_filter c l :
  proximityStage c l = List.filter (proximityKeeps c) l.
Proof. destruct c; simpl; [reflexivity | now rewrite filter_true]. Qed.

Lemma textStage_filter q l : textStage q l = List.filter (textKeeps q) l.
Proof.
  unfold textStage, textKeeps.
  destruct (JS.isEmpty (JS.trim q)); simpl; [now rewrite filter_true|].
  reflexivity.
Qed.

Lemma filteredOffers_filter st offers :
  filteredOffers st offers = List.filter (keeps st) offers.
Proof.
  unfold filteredOffers, activeOffers.
  rewrite textStage_filter, proximityStage_filter, typeStage_filter.
  rewrite !filter_filter. apply List.filter_ext. intros offer.
  unfold keeps. now rewrite !andb_assoc.
Qed.

(** C5: the feed filter applies the four stages, keeps every offer that
    passes them all, and returns the kept offers in their original order. *)
Theorem filteredOffers_stable (st : FilterState) (offers : list Offer) :
  filteredOffers st offers =
    List.filter
      (fun offer => isActive (today st) offer
                    && typeKeeps (activeFilter st) offer
                    && proximityKeeps (filterCenterPoint st) offer
                    && textKeeps (searchQuery st) offer) offers
  /\ sublist (filteredOffers st offers) offers
  /\ (forall offer, In offer (filteredOffers st offers) <->
        In offer offers /\ isActive (today st) offer = true
        /\ typeKeeps (activeFilter st) offer = true
        /\ proximityKeeps (filterCenterPoint st) offer = true
        /\ textKeeps (searchQuery st) offer = true).
Proof.
  pose proof (filteredOffers_filter st offers) as H. unfold keeps in H.
  split; [exact H|]. split.
  - rewrite H. apply filter_sublist.
  - intros offer. rewrite H, List.filter_In, !andb_true_iff. tauto.
Qed.

(** C6: filtering twice with the same parameters is filtering once. *)
Theorem filteredOffers_idempotent (st : FilterState) (offers : list Offer) :
  filteredOffers st (filteredOffers st offers) = filteredOffers st offers.
Proof. rewrite !filteredOffers_filter. apply filter_idem. Qed.

Lemma leR_true (x y : R) : leR x y = true <-> (x <= y)%R.
Proof. unfold leR. destruct (Rle_dec x y); split; congruence. Qed.

Lemma isNear_spec (c : LatLng) (offer : Offer) :
  isNear c offer = true <-> withinRadius c offer.
Proof.
  unfold isNear, withinRadius. destruct (location (base offer)) as [l|].
  - rewrite leR_true. split.
    + intros H. now exists l.
    + intros [l' [[= <-] H]]. exact H.
  - split; [discriminate | intros [l [H _]]; discriminate].
Qed.



(** An offer located at the center point is kept. *)
Example proximityStage_keeps_center :
  proximityStage (Some philadelphia)
    [bicycleAt (Some marketStreet); plainProduct]
  = [bicycleAt (Some marketStreet)].
Proof.
  assert (H : isNear philadelphia (bicycleAt (Some marketStreet)) = true).
  { apply isNear_spec. exists marketStreet. split; [reflexivity|]. simpl.
    rewrite getDistance_same. lra. }
  simpl. now rewrite H.
Qed.

End FeedFilter.

Section TextStage.
Import Feed.

Lemma otherDetails_lower (offer : Offer) :
  (match location (base offer) with
   | Some l => JS.toLowerCase (address l) +:+ " "
   | None => EmptyString
   end) +:+
  (match offer with
   | Job o => JS.toLowerCase (company o +:+ " " +:+ JS.join " " (skills o))
   | Service o => JS.toLowerCase (orEmpty (provider o))
   | Product o => JS.toLowerCase (orEmpty (brand o))
   end) = JS.toLowerCase (addressAndFields offer).
Proof.
  unfold addressAndFields.
  assert (Hf : (match offer with
   | Job o => JS.toLowerCase (company o +:+ " " +:+ JS.join " " (skills o))
   | Service o => JS.toLowerCase (orEmpty (provider o))
   | Product o => JS.toLowerCase (orEmpty (brand o))
   end) = JS.toLowerCase (typeSpecificFields offer)) by now destruct offer.
  rewrite Hf. destruct (location (base offer)) as [l|]; [|reflexivity].
  now rewrite !toLowerCase_app, append_assoc.
Qed.

Lemma matchesQuery_spec (query : string) (offer : Offer) :
  matchesQuery (JS.toLowerCase query) offer = true <-> textMatches query offer.
Proof.
  unfold matchesQuery, textMatches, isSubstringOf.
  rewrite otherDetails_lower, !orb_true_iff, !includes_spec. tauto.
Qed.



Example textStage_acme :
  textStage "acme" [acmeJob; plainProduct] = [acmeJob].
Proof. reflexivity. Qed.

End TextStage.

Section ExpiryStage.
Import Feed.

Lemma dateGe_false (d : option Z) (today : Z) :
  JS.dateGe d today = false <->
  d = None \/ exists n, d = Some n /\ n < today.
Proof.
  destruct d as [n|]; simpl.
  - rewrite Z.leb_gt. split.
    + intros H. right. now exists n.
    + intros [H | [m [[= <-] H]]]; [discriminate | exact H].
  - split; [now left | reflexivity].
Qed.

(** What [activeOffers] removes: the offers whose [expiresAt] has three
    parts that [parseInt] reads, and whose [Date] is not on or after
    [today], because it is an earlier day or because it is an Invalid
    Date. *)
Lemma isActive_false (today : Z) (offer : Offer) :
  isActive today offer = false <->
  exists expires p0 p1 p2 year m day,
    expiresAt (base offer) = Some expires
    /\ JS.split "-" expires = [p0; p1; p2]
    /\ JS.parseInt p0 = Some year
    /\ JS.parseInt p1 = Some m
    /\ JS.parseInt p2 = Some day
    /\ (JS.newDate year (m - 1) day = None
        \/ exists n, JS.newDate year (m - 1) day = Some n /\ n < today).
Proof.
  unfold isActive. split.
  - destruct (expiresAt (base offer)) as [expires|]; [|discriminate].
    destruct (JS.isEmpty expires); [discriminate|].
    destruct (JS.split "-" expires) as [|p0 [|p1 [|p2 [|? ?]]]] eqn:Hs;
      try discriminate.
    destruct (JS.parseInt p0) as [year|] eqn:H0; [|discriminate].
    destruct (JS.parseInt p1) as [m|] eqn:H1; [|discriminate].
    destruct (JS.parseInt p2) as [day|] eqn:H2; [|discriminate].
    intros H. apply dateGe_false in H.
    exists expires, p0, p1, p2, year, m, day. repeat split; assumption.
  - intros (expires & p0 & p1 & p2 & year & m & day
            & -> & Hs & H0 & H1 & H2 & H).
    destruct expires as [|c r]; [discriminate|]. simpl JS.isEmpty. cbv iota.
    rewrite Hs, H0, H1, H2. now apply dateGe_false.
Qed.

(** C1, where the code departs from it: an offer that expires on
    300000-01-01 has a three-part, numeric [expiresAt]; its date is an
    Invalid Date, not a day before today, and yet the expiry stage
    removes the offer, whatever day today is. *)
Theorem activeOffers_drops_out_of_range_date (today : Z) :
  JS.split "-" "300000-01-01" = ["300000"; "01"; "01"]
  /\ JS.newDate 300000 (1 - 1) 1 = None
  /\ isActive today (jobExpiring "300000-01-01") = false
  /\ activeOffers today [jobExpiring "300000-01-01"] = [].
Proof. repeat split. Qed.

(** Inside the range of [Date]: on 2024-06-01 the offers that expired in
    2000 and on the day before go, the ones that expire in 2099 or today
    stay, and so do those whose [expiresAt] is not a date. *)
Example activeOffers_scenario :
  activeOffers june1st2024
    [jobExpiring "2099-01-01"; jobExpiring "2000-01-01";
     jobExpiring "2024-06-01"; jobExpiring "2024-05-31";
     jobExpiring "soon"; jobExpiring "2024-06"; jobExpiring "2024-xx-01"]
  = [jobExpiring "2099-01-01"; jobExpiring "2024-06-01";
     jobExpiring "soon"; jobExpiring "2024-06"; jobExpiring "2024-xx-01"].
Proof. reflexivity. Qed.

End ExpiryStage.

(** Unfolds the operations of the monad and of the two tiers. *)
Ltac run :=
  unfold GeminiService.getFromCache, GeminiService.setInCache,
    GeminiService.readLocalStorage, GeminiService.tryCatch,
    GeminiService.throw, GeminiService.cache_get, GeminiService.cache_set,
    GeminiService.cache_delete, GeminiService.localStorage_getItem,
    GeminiService.localStorage_setItem,
    GeminiService.localStorage_removeItem, GeminiService.JSON_parse,
    GeminiService.JSON_stringify, GeminiService.console_error,
    mbind, GeminiService.M_bind, mret, GeminiService.M_ret; simpl.

(** ** The cache *)
Section Cache.
Import GeminiService.

Lemma setInCache_working key v now w :
  working (localStorage w) ->
  setInCache key v now w =
    (Normal tt,
     with_items (<[storedKey key := StoredEntry (entryOf v now)]>
                   (items (localStorage w)))
       (with_cache (<[key := entryOf v now]> (cache w)) w)).
Proof. intros [Hf Hd]. run. now rewrite Hd, Hf. Qed.

Lemma setInCache_writeFails key v now w :
  writeFails (localStorage w) ->
  setInCache key v now w =
    (Normal tt,
     with_console (console w ++ ["Error writing to localStorage cache"])
       (with_cache (<[key := entryOf v now]> (cache w)) w)).
Proof.
  intros H. run. destruct (denied (localStorage w)) eqn:Hd; [reflexivity|].
  destruct H as [H|H]; [now rewrite H | congruence].
Qed.

Lemma getFromCache_hit key now w e :
  cache w !! key = Some e -> now < expiry e ->
  getFromCache key now w = (Normal (value e), w).
Proof.
  intros H Ht. run. rewrite H. apply Z.ltb_lt in Ht. now rewrite Ht.
Qed.

Lemma entry_eta (e : CacheEntry) : {| value := value e; expiry := expiry e |} = e.
Proof. now destruct e. Qed.

Lemma purged_lookup key w : cache (purged key w) !! key = None.
Proof.
  unfold purged. destruct (cache w !! key) eqn:H; [|exact H].
  simpl. apply lookup_delete_eq.
Qed.

Lemma purged_localStorage key w : localStorage (purged key w) = localStorage w.
Proof. unfold purged. now destruct (cache w !! key). Qed.

Lemma getFromCache_memoryMiss key now w :
  memoryMiss key now w ->
  getFromCache key now w =
    match readLocalStorage key now (purged key w) with
    | (Normal found, w') => (Normal (default JNull found), w')
    | (Throw e, w') => (Throw e, w')
    end.
Proof.
  intros Hm. unfold getFromCache, purged, cache_get, cache_delete, mbind,
    M_bind, mret, M_ret.
  destruct (cache w !! key) as [e|] eqn:H; [|reflexivity].
  apply Hm in H. apply Z.ltb_ge in H. now rewrite H.
Qed.







(** C8: when the write to the durable store fails, [set(key, v)] ends
    normally, with the failure logged; the in-memory tier holds [v] with
    expiry [now + TTL], the durable tier is as it was, and a [get(key)]
    within the TTL returns [v]. *)
Theorem setInCache_survives_write_failure
    (key : string) (v : Json) (now : Z) (w : World) :
  writeFails (localStorage w) ->
  exists w1,
    setInCache key v now w = (Normal tt, w1)
    /\ cache w1 !! key = Some {| value := v; expiry := now + CACHE_TTL |}
    /\ localStorage w1 = localStorage w
    /\ console w1 = console w ++ ["Error writing to localStorage cache"]
    /\ (forall t, t < now + CACHE_TTL ->
          getFromCache key t w1 = (Normal v, w1)).
Proof.
  intros H. rewrite (setInCache_writeFails _ _ _ _ H).
  eexists. split; [reflexivity|]. simpl. split; [apply lookup_insert_eq|].
  split; [reflexivity|]. split; [reflexivity|]. intros t Ht.
  apply (getFromCache_hit key t _ (entryOf v now)); [|exact Ht].
  simpl. apply lookup_insert_eq.
Qed.



(** With a full storage the value is still served from memory. *)
Lemma setInCache_survives_write_failure_witness :
  writeFails (localStorage fullWorld)
  /\ exists w1,
       setInCache "k" (JStr "Paris") 0 fullWorld = (Normal tt, w1)
       /\ cache w1 !! "k"
          = Some {| value := JStr "Paris"; expiry := 0 + CACHE_TTL |}
       /\ localStorage w1 = localStorage fullWorld
       /\ console w1
          = console fullWorld ++ ["Error writing to localStorage cache"]
       /\ (forall t, t < 0 + CACHE_TTL ->
             getFromCache "k" t w1 = (Normal (JStr "Paris"), w1)).
Proof.
  assert (H : writeFails (localStorage fullWorld)) by (left; reflexivity).
  split; [exact H|].
  apply (setInCache_survives_write_failure "k" (JStr "Paris") 0 fullWorld H).
Defined.

End Cache.

(** ** The lookups *)
Section LookupFacts.
Import GeminiService.

Variable gemini : list AiRequest -> AiRequest -> AiOutcome.
Variable toFixed2 : R -> string.

Lemma readLocalStorage_cases key now w :
  exists found w0,
    readLocalStorage key now w = (Normal found, w0)
    /\ aiCalls w0 = aiCalls w
    /\ match found with
       | Some v =>
           exists e, items (localStorage w) !! storedKey key
                       = Some (StoredEntry e)
                     /\ v = value e
                     /\ cache w0 = <[key := e]> (cache w)
                     /\ localStorage w0 = localStorage w
       | None =>
           cache w0 = cache w
           /\ full (localStorage w0) = full (localStorage w)
           /\ denied (localStorage w0) = denied (localStorage w)
           /\ (forall k, items (localStorage w0) !! k = None
                         \/ items (localStorage w0) !! k
                            = items (localStorage w) !! k)
           /\ (denied (localStorage w0) = true
               \/ items (localStorage w0) !! storedKey key = None
               \/ items (localStorage w0) !! storedKey key
                  = Some StoredGarbage)
       end.
Proof.
  run. fold (storedKey key).
  destruct (denied (localStorage w)) eqn:Hd.
  { eexists None, _. split; [reflexivity|]. simpl. rewrite Hd. tauto. }
  destruct (items (localStorage w) !! storedKey key) as [[e|]|] eqn:Hi; simpl.
  - destruct (now <? expiry e) eqn:Ht; simpl.
    + eexists (Some _), _. split; [reflexivity|]. simpl.
      split; [reflexivity|]. exists e. now rewrite entry_eta.
    + rewrite Hd. eexists None, _. split; [reflexivity|]. simpl.
      do 4 (split; [first [reflexivity | exact Hd]|]). split.
      * intros k. destruct (decide (k = storedKey key)) as [->|Hk].
        -- left. apply lookup_delete_eq.
        -- right. now apply lookup_delete_ne.
      * right. left. apply lookup_delete_eq.
  - eexists None, _. split; [reflexivity|]. simpl. rewrite Hd, Hi. tauto.
  - eexists None, _. split; [reflexivity|]. simpl. rewrite Hd, Hi. tauto.
Qed.

Lemma valuesTruthy_sub (w w' : World) :
  valuesTruthy w ->
  (forall k e, cache w' !! k = Some e ->
     cache w !! k = Some e \/ truthy (value e) = true) ->
  (forall k e, items (localStorage w') !! k = Some (StoredEntry e) ->
     items (localStorage w) !! k = Some (StoredEntry e)
     \/ truthy (value e) = true) ->
  valuesTruthy w'.
Proof.
  intros [Hc Hi] Hc' Hi'. split; intros k e H.
  - destruct (Hc' k e H) as [H'|H']; [now apply (Hc k) | exact H'].
  - destruct (Hi' k e H) as [H'|H']; [now apply (Hi k) | exact H'].
Qed.

Lemma purged_valuesTruthy key w : valuesTruthy w -> valuesTruthy (purged key w).
Proof.
  intros H. apply (valuesTruthy_sub w); [exact H | |].
  - intros k e. unfold purged. destruct (cache w !! key); [|now left].
    simpl. intros Hk. left. apply lookup_delete_Some in Hk. apply Hk.
  - intros k e. rewrite purged_localStorage. now left.
Qed.

Lemma purged_aiCalls key w : aiCalls (purged key w) = aiCalls w.
Proof. unfold purged. now destruct (cache w !! key). Qed.

Lemma insert_valuesTruthy key e w w0 :
  valuesTruthy w -> truthy (value e) = true ->
  cache w0 = <[key := e]> (cache w) -> localStorage w0 = localStorage w ->
  valuesTruthy w0.
Proof.
  intros Hv He Hc Hl. apply (valuesTruthy_sub w); [exact Hv | |].
  - intros k e0. rewrite Hc. destruct (decide (k = key)) as [->|Hk].
    + rewrite lookup_insert_eq. intros [= <-]. now right.
    + rewrite lookup_insert_ne by congruence. now left.
  - intros k e0. rewrite Hl. now left.
Qed.

(** A [get] that finds nothing live in memory: what it returns comes from
    the durable tier. *)
Lemma getFromCache_memoryMiss_cases key now w :
  memoryMiss key now w ->
  exists v w0,
    getFromCache key now w = (Normal v, w0)
    /\ aiCalls w0 = aiCalls w
    /\ (valuesTruthy w ->
        valuesTruthy w0 /\ (truthy v = false -> v = JNull /\ misses key w0)).
Proof.
  intros Hm. rewrite (getFromCache_memoryMiss _ _ _ Hm).
  destruct (readLocalStorage_cases key now (purged key w))
    as (found & w0 & -> & Ha & Hcases).
  rewrite purged_aiCalls in Ha.
  exists (default JNull found), w0. split; [reflexivity|].
  split; [exact Ha|]. intros Hv. apply (purged_valuesTruthy key) in Hv.
  destruct found as [v|]; simpl.
  - destruct Hcases as (e & Hi & -> & Hc0 & Hl0).
    assert (He : truthy (value e) = true) by (apply (proj2 Hv _ _ Hi)).
    split; [|rewrite He; discriminate].
    exact (insert_valuesTruthy _ _ _ _ Hv He Hc0 Hl0).
  - destruct Hcases as (Hc0 & _ & _ & Hsub & Hmiss). split.
    + apply (valuesTruthy_sub (purged key w)); [exact Hv | |].
      * intros k e0. rewrite Hc0. now left.
      * intros k e0 Hk. destruct (Hsub k) as [H|H];
          [congruence | left; congruence].
    + intros _. split; [reflexivity|]. split; [|exact Hmiss].
      rewrite Hc0. apply purged_lookup.
Qed.

(** [getFromCache] always returns, sends no request, keeps the values
    truthy, and returns a falsy value only when it is [null] and neither
    tier can answer for the key any more. *)
Lemma getFromCache_cases key now w :
  exists v w0,
    getFromCache key now w = (Normal v, w0)
    /\ aiCalls w0 = aiCalls w
    /\ (valuesTruthy w ->
        valuesTruthy w0 /\ (truthy v = false -> v = JNull /\ misses key w0)).
Proof.
  destruct (cache w !! key) as [e|] eqn:Hc.
  - destruct (Z.ltb_spec now (expiry e)) as [Ht|Ht].
    + exists (value e), w. rewrite (getFromCache_hit _ _ _ _ Hc Ht).
      split; [reflexivity|]. split; [reflexivity|]. intros Hv.
      split; [exact Hv|]. intros Hf. destruct Hv as [Hv _].
      rewrite (Hv _ _ Hc) in Hf. discriminate.
    + apply getFromCache_memoryMiss_cases.
      intros e' He'. rewrite Hc in He'. now injection He' as <-.
  - apply getFromCache_memoryMiss_cases.
    intros e' He'. rewrite Hc in He'. discriminate.
Qed.

(** Once neither tier can answer for a key, a [get] of it at any time
    returns [null] and changes neither tier. *)
Lemma getFromCache_misses key t w :
  misses key w ->
  exists w',
    getFromCache key t w = (Normal JNull, w')
    /\ cache w' = cache w
    /\ localStorage w' = localStorage w
    /\ aiCalls w' = aiCalls w.
Proof.
  intros [Hc Hs]. run. rewrite Hc. fold (storedKey key).
  destruct (denied (localStorage w)) eqn:Hd; simpl.
  { eexists. split; [reflexivity|]. now simpl. }
  destruct Hs as [Hs | [Hs | Hs]]; [discriminate | |];
    rewrite Hs; simpl; eexists; (split; [reflexivity|]); now simpl.
Qed.

Lemma setInCache_effect key v now w :
  exists w1,
    setInCache key v now w = (Normal tt, w1)
    /\ cache w1 = <[key := entryOf v now]> (cache w)
    /\ aiCalls w1 = aiCalls w
    /\ (localStorage w1 = localStorage w
        \/ items (localStorage w1)
           = <[storedKey key := StoredEntry (entryOf v now)]>
               (items (localStorage w))).
Proof.
  destruct (denied (localStorage w)) eqn:Hd;
    [|destruct (full (localStorage w)) eqn:Hf].
  - rewrite setInCache_writeFails by (now right). eexists.
    split; [reflexivity|]. simpl. tauto.
  - rewrite setInCache_writeFails by (now left). eexists.
    split; [reflexivity|]. simpl. tauto.
  - rewrite setInCache_working by (now split). eexists.
    split; [reflexivity|]. simpl. tauto.
Qed.

(** *** [reverseGeocode] *)

Lemma reverseGeocode_hit lat lng now resumed w cached w0 :
  getFromCache (reverseGeocodeKey toFixed2 lat lng) now w
    = (Normal cached, w0) ->
  truthy cached = true ->
  reverseGeocode gemini toFixed2 lat lng now resumed w = (Normal cached, w0).
Proof.
  intros Hg Ht. unfold reverseGeocode, mbind, M_bind. rewrite Hg, Ht.
  reflexivity.
Qed.

Lemma reverseGeocode_miss lat lng now resumed w cached w0 :
  let key := reverseGeocodeKey toFixed2 lat lng in
  let request := ReverseGeocodeRequest lat lng in
  getFromCache key now w = (Normal cached, w0) ->
  truthy cached = false ->
  match locationNameIn (gemini (aiCalls w0) request) with
  | Some name =>
      truthy name = true
      /\ reverseGeocode gemini toFixed2 lat lng now resumed w
         = (Normal name, snd (setInCache key name resumed (asked request w0)))
  | None =>
      exists log,
        reverseGeocode gemini toFixed2 lat lng now resumed w
        = (Normal JNull, with_console log (asked request w0))
  end.
Proof.
  intros key request Hg Ht.
  remember (reverseGeocode gemini toFixed2 lat lng now resumed w) as out
    eqn:Hout.
  unfold reverseGeocode, mbind at 1, M_bind at 1 in Hout. fold key in Hout.
  rewrite Hg, Ht in Hout. unfold locationNameIn.
  unfold tryCatch, generateContent, mbind at 1, M_bind at 1 in Hout.
  fold request in Hout.
  destruct (gemini (aiCalls w0) request) as [|parsed].
  { subst out. now eexists. }
  fold (asked request w0) in Hout.
  destruct parsed as [| | | | |fields]; simpl in Hout;
    try (subst out; exists (console (asked request w0));
         now destruct (asked request w0)).
  { subst out. now eexists. }
  unfold mbind, M_bind, mret, M_ret, orElse in Hout.
  destruct (field "locationName" fields) as [name|];
    [|subst out; exists (console (asked request w0));
      now destruct (asked request w0)].
  destruct (truthy name) eqn:Hn.
  - split; [exact Hn|]. rewrite Hn in Hout.
    destruct (setInCache_effect key name resumed (asked request w0))
      as (w1 & Hs & _). rewrite Hs in Hout. now rewrite Hs.
  - subst out. exists (console (asked request w0)).
    now destruct (asked request w0).
Qed.

(** *** [geocodeLocation] *)

Lemma geocodeLocation_blank address now resumed w :
  JS.isEmpty (JS.trim address) = true ->
  geocodeLocation gemini address now resumed w = (Normal JNull, w).
Proof. intros H. unfold geocodeLocation. now rewrite H. Qed.

Lemma geocodeLocation_hit address now resumed w cached w0 :
  JS.isEmpty (JS.trim address) = false ->
  getFromCache (geocodeKey address) now w = (Normal cached, w0) ->
  truthy cached = true ->
  geocodeLocation gemini address now resumed w = (Normal cached, w0).
Proof.
  intros He Hg Ht. unfold geocodeLocation, mbind, M_bind.
  rewrite He, Hg, Ht. reflexivity.
Qed.

Lemma geocodeLocation_miss address now resumed w cached w0 :
  let key := geocodeKey address in
  let request := GeocodeRequest address in
  JS.isEmpty (JS.trim address) = false ->
  getFromCache key now w = (Normal cached, w0) ->
  truthy cached = false ->
  match coordinatesIn (gemini (aiCalls w0) request) with
  | Some parsed =>
      truthy parsed = true
      /\ geocodeLocation gemini address now resumed w
         = (Normal parsed,
            snd (setInCache key parsed resumed (asked request w0)))
  | None =>
      exists log,
        geocodeLocation gemini address now resumed w
        = (Normal JNull, with_console log (asked request w0))
  end.
Proof.
  intros key request He Hg Ht.
  remember (geocodeLocation gemini address now resumed w) as out eqn:Hout.
  unfold geocodeLocation in Hout. rewrite He in Hout.
  unfold mbind at 1, M_bind at 1 in Hout. fold key in Hout.
  rewrite Hg, Ht in Hout. unfold coordinatesIn.
  unfold tryCatch, generateContent, mbind at 1, M_bind at 1 in Hout.
  fold request in Hout.
  destruct (gemini (aiCalls w0) request) as [|parsed].
  { subst out. now eexists. }
  fold (asked request w0) in Hout.
  destruct parsed as [| | | | |fields]; simpl in Hout;
    try (subst out; exists (console (asked request w0));
         now destruct (asked request w0)).
  { subst out. now eexists. }
  unfold mbind, M_bind, mret, M_ret in Hout.
  destruct (isNumber (field "lat" fields)); simpl;
    [|subst out; exists (console (asked request w0));
      now destruct (asked request w0)].
  destruct (isNumber (field "lng" fields)); simpl;
    [|subst out; exists (console (asked request w0));
      now destruct (asked request w0)].
  split; [reflexivity|].
  destruct (setInCache_effect key (JObj fields) resumed (asked request w0))
    as (w1 & Hs & _). rewrite Hs in Hout. now rewrite Hs.
Qed.

Lemma readsThrough_miss_aiCalls key request answer fallback lookup :
  readsThrough gemini key request answer fallback lookup ->
  forall now resumed w cached w0,
    getFromCache key now w = (Normal cached, w0) ->
    truthy cached = false ->
    aiCalls (snd (lookup now resumed w)) = aiCalls w0 ++ [request].
Proof.
  intros Hr now resumed w cached w0 Hg Ht.
  specialize (Hr now resumed w cached w0 Hg). rewrite Ht in Hr.
  destruct (answer (gemini (aiCalls w0) request)) as [v|].
  - destruct Hr as [_ ->]. cbn [snd].
    destruct (setInCache_effect key v resumed (asked request w0))
      as (w1 & Hs & _ & Ha & _). rewrite Hs. cbn [snd]. now rewrite Ha.
  - destruct Hr as [log ->]. reflexivity.
Qed.

Lemma app_one_neq {A} (l : list A) (x : A) : l <> l ++ [x].
Proof.
  intros H. apply (f_equal (@List.length A)) in H.
  rewrite length_app in H. simpl in H. lia.
Qed.

Lemma readsThrough_neverCachesFailure key request answer lookup w :
  readsThrough gemini key request answer JNull lookup ->
  valuesTruthy w ->
  neverCachesFailure gemini key request answer lookup w.
Proof.
  intros Hr Hv now resumed.
  destruct (getFromCache_cases key now w) as (cached & w0 & Hg & Ha & Hc).
  destruct (Hc Hv) as [_ Hmiss]. clear Hc.
  pose proof (Hr now resumed w cached w0 Hg) as Hout.
  rewrite Hg. cbn [snd]. destruct (truthy cached) eqn:Ht.
  - rewrite Hout. cbn [fst snd]. split.
    + intros [H|H]; now contradiction H.
    + rewrite Ha. intros H. now apply app_one_neq in H.
  - destruct (Hmiss eq_refl) as [-> Hm]. rewrite <- Ha.
    destruct (answer (gemini (aiCalls w0) request)) as [v|].
    + destruct Hout as [Hvt ->]. cbn [fst snd].
      destruct (setInCache_effect key v resumed (asked request w0))
        as (w1 & -> & Hc1 & Ha1 & _). cbn [snd]. split.
      * intros _. split; [exact Ha1|]. exists v.
        split; [reflexivity|]. split; [reflexivity|].
        rewrite Hc1. apply lookup_insert_eq.
      * intros _ H. discriminate.
    + destruct Hout as [log ->]. cbn [fst snd]. split.
      * intros [H|H]; now contradiction H.
      * intros _ _. split; [reflexivity|]. split; [reflexivity|].
        split; [reflexivity|]. intros t t'.
        set (w' := with_console log (asked request w0)).
        assert (Hm' : misses key w') by exact Hm.
        destruct (getFromCache_misses key t w' Hm')
          as (w'' & Hg' & _ & _ & Ha').
        rewrite (readsThrough_miss_aiCalls _ _ _ _ _ Hr t t' w' JNull w'' Hg')
          by reflexivity.
        now rewrite Ha'.
Qed.

Lemma reverseGeocode_readsThrough lat lng :
  readsThrough gemini (reverseGeocodeKey toFixed2 lat lng)
    (ReverseGeocodeRequest lat lng) locationNameIn JNull
    (reverseGeocode gemini toFixed2 lat lng).
Proof.
  intros now resumed w cached w0 Hg. destruct (truthy cached) eqn:Ht.
  - exact (reverseGeocode_hit _ _ _ _ _ _ _ Hg Ht).
  - pose proof (reverseGeocode_miss lat lng now resumed _ _ _ Hg Ht) as H.
    exact H.
Qed.

Lemma geocodeLocation_readsThrough address :
  JS.trim address <> EmptyString ->
  readsThrough gemini (geocodeKey address) (GeocodeRequest address)
    coordinatesIn JNull (geocodeLocation gemini address).
Proof.
  intros He now resumed w cached w0 Hg. apply isEmpty_false in He.
  destruct (truthy cached) eqn:Ht.
  - exact (geocodeLocation_hit _ _ _ _ _ _ He Hg Ht).
  - pose proof (geocodeLocation_miss address now resumed _ _ _ He Hg Ht) as H.
    exact H.
Qed.

(** C10: [reverseGeocode] and [geocodeLocation] never cache a failed
    lookup.  An entry is written only when the service gave a non-null
    location name, respectively a response with numeric [lat] and [lng];
    on any other outcome the two tiers stay as the lookup of the key left
    them and the next call with the same key queries the service again. *)
Theorem lookups_never_cache_failure (w : World) :
  valuesTruthy w ->
  (forall lat lng,
     neverCachesFailure gemini (reverseGeocodeKey toFixed2 lat lng)
       (ReverseGeocodeRequest lat lng) locationNameIn
       (reverseGeocode gemini toFixed2 lat lng) w)
  /\ (forall address,
        JS.trim address <> EmptyString ->
        neverCachesFailure gemini (geocodeKey address)
          (GeocodeRequest address) coordinatesIn
          (geocodeLocation gemini address) w).
Proof.
  intros Hv. split.
  - intros lat lng. apply readsThrough_neverCachesFailure; [|exact Hv].
    apply reverseGeocode_readsThrough.
  - intros address He. apply readsThrough_neverCachesFailure; [|exact Hv].
    now apply geocodeLocation_readsThrough.
Qed.

Lemma getLocationSuggestions_short query now resumed w :
  (String.length (JS.trim query) < 3)%nat ->
  getLocationSuggestions gemini query now resumed w = (Normal (JArr []), w).
Proof.
  intros H. unfold getLocationSuggestions.
  apply Nat.ltb_lt in H. now rewrite H.
Qed.

(** C9: a query whose trimmed length is below 3 gets the empty list, and
    the world is untouched: no request is sent and neither tier of the
    cache is read or written. *)
Theorem getLocationSuggestions_short_query
    (query : string) (now resumed : Z) (w : World) :
  (String.length (JS.trim query) < 3)%nat ->
  getLocationSuggestions gemini query now resumed w = (Normal (JArr []), w).
Proof. apply getLocationSuggestions_short. Qed.

(** *** [getLocationSuggestions] beyond two characters *)

Lemma orElse_truthy (a : option Json) (b : Json) :
  truthy b = true -> truthy (orElse a b) = true.
Proof.
  intros Hb. unfold orElse. destruct a as [v|]; [|exact Hb].
  now destruct (truthy v) eqn:Hv.
Qed.

Lemma getLocationSuggestions_readsThrough query :
  (3 <= String.length (JS.trim query))%nat ->
  readsThrough gemini (suggestionsKey query) (SuggestionsRequest query)
    suggestionsIn (JArr []) (getLocationSuggestions gemini query).
Proof.
  intros Hlen now resumed w cached w0 Hg.
  assert (Hl : (String.length (JS.trim query) <? 3)%nat = false)
    by (apply Nat.ltb_ge; exact Hlen).
  remember (getLocationSuggestions gemini query now resumed w) as out
    eqn:Hout.
  unfold getLocationSuggestions in Hout. rewrite Hl in Hout.
  unfold mbind at 1, M_bind at 1 in Hout. rewrite Hg in Hout.
  destruct (truthy cached); [exact Hout|].
  set (request := SuggestionsRequest query) in *.
  unfold tryCatch, generateContent, mbind at 1, M_bind at 1 in Hout.
  unfold suggestionsIn.
  destruct (gemini (aiCalls w0) request) as [|parsed].
  { subst out. now eexists. }
  fold (asked request w0) in Hout.
  destruct parsed as [| | | | |fields];
    unfold getProp, throw, mbind, M_bind, mret, M_ret in Hout;
    [ subst out; now eexists | .. ];
    try change (orElse None (JArr [])) with (JArr []) in Hout;
    match type of Hout with
    | context [setInCache ?k ?v ?r ?w1] =>
        destruct (setInCache_effect k v r w1) as (w2 & Hs & _);
        rewrite Hs in Hout; rewrite Hs;
        (split; [first [reflexivity | now apply orElse_truthy] | exact Hout])
    end.
Qed.

(** *** The values the module stores are truthy *)

Lemma freshWorld_valuesTruthy : valuesTruthy freshWorld.
Proof.
  split; intros k e H; simpl in H; rewrite lookup_empty in H; discriminate.
Qed.

Lemma setInCache_valuesTruthy key v now w :
  truthy v = true -> valuesTruthy w ->
  valuesTruthy (snd (setInCache key v now w)).
Proof.
  intros Hv Hw.
  destruct (setInCache_effect key v now w) as (w1 & -> & Hc & _ & Hl).
  cbn [snd]. apply (valuesTruthy_sub w); [exact Hw | |].
  - intros k e. rewrite Hc. destruct (decide (k = key)) as [->|Hk].
    + rewrite lookup_insert_eq. intros [= <-]. now right.
    + rewrite lookup_insert_ne by congruence. now left.
  - intros k e. destruct Hl as [-> | ->]; [now left|].
    destruct (decide (k = storedKey key)) as [->|Hk].
    + rewrite lookup_insert_eq. intros [= <-]. now right.
    + rewrite lookup_insert_ne by congruence. now left.
Qed.

(** A lookup that reads through the cache keeps the values truthy. *)
Lemma readsThrough_valuesTruthy key request answer fallback lookup :
  readsThrough gemini key request answer fallback lookup ->
  forall now resumed w,
    valuesTruthy w -> valuesTruthy (snd (lookup now resumed w)).
Proof.
  intros Hr now resumed w Hw.
  destruct (getFromCache_cases key now w) as (cached & w0 & Hg & _ & Hc).
  destruct (Hc Hw) as [Hw0 _].
  specialize (Hr now resumed w cached w0 Hg).
  destruct (truthy cached); [now rewrite Hr|].
  destruct (answer (gemini (aiCalls w0) request)) as [v|].
  - destruct Hr as [Hv ->]. cbn [snd].
    apply setInCache_valuesTruthy; [exact Hv | exact Hw0].
  - destruct Hr as [log ->]. exact Hw0.
Qed.

(** Every world the three lookups reach from a fresh page stores truthy
    values only. *)
Lemma lookups_keep_valuesTruthy (w : World) (now resumed : Z) :
  valuesTruthy w ->
  (forall lat lng,
     valuesTruthy (snd (reverseGeocode gemini toFixed2 lat lng now resumed w)))
  /\ (forall query,
        valuesTruthy (snd (getLocationSuggestions gemini query now resumed w)))
  /\ (forall address,
        valuesTruthy (snd (geocodeLocation gemini address now resumed w))).
Proof.
  intros Hw. split; [|split].
  - intros lat lng.
    apply (readsThrough_valuesTruthy _ _ _ _ _
             (reverseGeocode_readsThrough lat lng)), Hw.
  - intros query.
    destruct (Nat.ltb_spec (String.length (JS.trim query)) 3) as [H|H].
    + now rewrite getLocationSuggestions_short.
    + apply (readsThrough_valuesTruthy _ _ _ _ _
               (getLocationSuggestions_readsThrough query H)), Hw.
  - intros address. destruct (JS.isEmpty (JS.trim address)) eqn:He.
    + now rewrite geocodeLocation_blank.
    + apply isEmpty_false in He.
      apply (readsThrough_valuesTruthy _ _ _ _ _
               (geocodeLocation_readsThrough address He)), Hw.
Qed.

End LookupFacts.

(** While the service is down, [reverseGeocode] on a fresh page returns
    [null], stores nothing, and asks again at the next call. *)
Lemma lookups_never_cache_failure_witness :
  valuesTruthy freshWorld
  /\ neverCachesFailure serviceDown
       (GeminiService.reverseGeocodeKey zeroFixed 0 0)
       (GeminiService.ReverseGeocodeRequest 0 0) locationNameIn
       (GeminiService.reverseGeocode serviceDown zeroFixed 0 0) freshWorld
  /\ JS.trim "Paris" <> EmptyString
  /\ neverCachesFailure serviceDown (GeminiService.geocodeKey "Paris")
       (GeminiService.GeocodeRequest "Paris") coordinatesIn
       (GeminiService.geocodeLocation serviceDown "Paris") freshWorld.
Proof.
  pose proof (lookups_never_cache_failure serviceDown zeroFixed freshWorld
                freshWorld_valuesTruthy) as [Hr Hg].
  split; [exact freshWorld_valuesTruthy|]. split; [apply Hr|].
  assert (Hp : JS.trim "Paris" <> EmptyString) by discriminate.
  split; [exact Hp | exact (Hg "Paris" Hp)].
Defined.

(** "ny" is too short for a suggestion lookup. *)
Lemma getLocationSuggestions_short_query_witness :
  (String.length (JS.trim "ny") < 3)%nat
  /\ GeminiService.getLocationSuggestions serviceDown "ny" 0 0 freshWorld
     = (GeminiService.Normal (GeminiService.JArr []), freshWorld).
Proof.
  assert (H : (String.length (JS.trim "ny") < 3)%nat) by (simpl; lia).
  split; [exact H|].
  apply (getLocationSuggestions_short_query serviceDown "ny" 0 0 freshWorld H).
Defined.

(** * Further properties *)

(** ** The cache *)
Section CacheMore.
Import GeminiService.

(** X1: [getFromCache] and [setInCache] never throw, whatever the storage
    does, and neither sends a request. *)
Theorem cache_never_throws (key : string) (v : Json) (now : Z) (w : World) :
  (exists r w1,
     getFromCache key now w = (Normal r, w1) /\ aiCalls w1 = aiCalls w)
  /\ (exists w2,
        setInCache key v now w = (Normal tt, w2) /\ aiCalls w2 = aiCalls w).
Proof.
  split.
  - destruct (getFromCache_cases key now w) as (r & w1 & H & Ha & _).
    now exists r, w1.
  - destruct (setInCache_effect key v now w) as (w2 & H & _ & Ha & _).
    now exists w2.
Qed.




End CacheMore.

(** ** The lookups *)
Section LookupsMore.
Import GeminiService.

Variable gemini : list AiRequest -> AiRequest -> AiOutcome.
Variable toFixed2 : R -> string.

Lemma readsThrough_returns key request answer fallback lookup :
  readsThrough gemini key request answer fallback lookup ->
  forall now resumed w, exists v, fst (lookup now resumed w) = Normal v.
Proof.
  intros Hr now resumed w.
  destruct (getFromCache_cases key now w) as (cached & w0 & Hg & _).
  specialize (Hr now resumed w cached w0 Hg).
  destruct (truthy cached); [rewrite Hr; now eexists|].
  destruct (answer (gemini (aiCalls w0) request)) as [v|].
  - destruct Hr as [_ ->]. now eexists.
  - destruct Hr as [log ->]. now eexists.
Qed.

(** X3: the three lookups never throw: a failure of the service, of the
    response or of the storage ends in a normal return. *)
Theorem lookups_never_throw (now resumed : Z) (w : World) :
  (forall lat lng, exists v,
     fst (reverseGeocode gemini toFixed2 lat lng now resumed w) = Normal v)
  /\ (forall query, exists v,
        fst (getLocationSuggestions gemini query now resumed w) = Normal v)
  /\ (forall address, exists v,
        fst (geocodeLocation gemini address now resumed w) = Normal v).
Proof.
  split; [|split].
  - intros lat lng.
    apply (readsThrough_returns _ _ _ _ _ (reverseGeocode_readsThrough
             gemini toFixed2 lat lng)).
  - intros query.
    destruct (Nat.ltb_spec (String.length (JS.trim query)) 3) as [H|H].
    + rewrite getLocationSuggestions_short by exact H. now eexists.
    + apply (readsThrough_returns _ _ _ _ _
               (getLocationSuggestions_readsThrough gemini query H)).
  - intros address. destruct (JS.isEmpty (JS.trim address)) eqn:He.
    + rewrite geocodeLocation_blank by exact He. now eexists.
    + apply isEmpty_false in He.
      apply (readsThrough_returns _ _ _ _ _
               (geocodeLocation_readsThrough gemini address He)).
Qed.

Lemma readsThrough_serves key request answer fallback lookup
      request' answer' fallback' again w :
  readsThrough gemini key request answer fallback lookup ->
  readsThrough gemini key request' answer' fallback' again ->
  servesFromCache gemini request answer lookup again w.
Proof.
  intros Hr Hr' now resumed v.
  destruct (getFromCache_cases key now w) as (cached & w0 & Hg & Ha & _).
  specialize (Hr now resumed w cached w0 Hg). cbv zeta.
  destruct (truthy cached).
  { rewrite Hr. cbn [snd]. rewrite Ha. intros H.
    now apply app_one_neq in H. }
  rewrite <- Ha. intros _ Hv. rewrite Hv in Hr. destruct Hr as [Ht ->].
  cbn [fst snd]. split; [reflexivity|]. intros t t' Hlt.
  destruct (setInCache_effect key v resumed (asked request w0))
    as (w1 & -> & Hc & _). cbn [snd].
  assert (Hhit : getFromCache key t w1 = (Normal v, w1)).
  { apply (getFromCache_hit key t w1 (entryOf v resumed)); [|exact Hlt].
    rewrite Hc. apply lookup_insert_eq. }
  specialize (Hr' t t' w1 v w1 Hhit). now rewrite Ht in Hr'.
Qed.

Lemma sent_nothing_serves request answer lookup again w :
  (forall now resumed, snd (lookup now resumed w) = w) ->
  servesFromCache gemini request answer lookup again w.
Proof.
  intros H now resumed v. cbv zeta. rewrite H. intros Hs.
  now apply app_one_neq in Hs.
Qed.

(** X4: an answer of the service is served from the cache for the next
    five minutes, to every call whose key is the same: coordinates that
    agree to two decimals, a query or an address that differs by letter
    case only.  Such a call returns the stored answer and changes nothing;
    no request is sent. *)
Theorem lookups_serve_from_cache (w : World) :
  (forall lat lng lat' lng',
     toFixed2 lat' = toFixed2 lat -> toFixed2 lng' = toFixed2 lng ->
     servesFromCache gemini (ReverseGeocodeRequest lat lng) locationNameIn
       (reverseGeocode gemini toFixed2 lat lng)
       (reverseGeocode gemini toFixed2 lat' lng') w)
  /\ (forall query query',
        JS.toLowerCase query' = JS.toLowerCase query ->
        (3 <= String.length (JS.trim query'))%nat ->
        servesFromCache gemini (SuggestionsRequest query) suggestionsIn
          (getLocationSuggestions gemini query)
          (getLocationSuggestions gemini query') w)
  /\ (forall address address',
        JS.toLowerCase address' = JS.toLowerCase address ->
        JS.trim address' <> EmptyString ->
        servesFromCache gemini (GeocodeRequest address) coordinatesIn
          (geocodeLocation gemini address)
          (geocodeLocation gemini address') w).
Proof.
  split; [|split].
  - intros lat lng lat' lng' Hlat Hlng.
    pose proof (reverseGeocode_readsThrough gemini toFixed2 lat' lng') as H'.
    unfold reverseGeocodeKey in H'. rewrite Hlat, Hlng in H'.
    exact (readsThrough_serves _ _ _ _ _ _ _ _ _ w
             (reverseGeocode_readsThrough gemini toFixed2 lat lng) H').
  - intros query query' Hq Hlen'.
    pose proof (getLocationSuggestions_readsThrough gemini query' Hlen')
      as H'.
    unfold suggestionsKey in H'. rewrite Hq in H'.
    destruct (Nat.ltb_spec (String.length (JS.trim query)) 3) as [H|H].
    + apply sent_nothing_serves. intros now resumed.
      now rewrite getLocationSuggestions_short.
    + exact (readsThrough_serves _ _ _ _ _ _ _ _ _ w
               (getLocationSuggestions_readsThrough gemini query H) H').
  - intros address address' Ha Hne'.
    pose proof (geocodeLocation_readsThrough gemini address' Hne') as H'.
    unfold geocodeKey in H'. rewrite Ha in H'.
    destruct (JS.isEmpty (JS.trim address)) eqn:He.
    + apply sent_nothing_serves. intros now resumed.
      now rewrite geocodeLocation_blank.
    + apply isEmpty_false in He.
      exact (readsThrough_serves _ _ _ _ _ _ _ _ _ w
               (geocodeLocation_readsThrough gemini address He) H').
Qed.

(** X5: [getLocationSuggestions] stores every response that is not
    [null], also one without suggestions, which it stores as the empty
    list; the entry lives for [CACHE_TTL] from the arrival of the
    response. *)
Theorem getLocationSuggestions_caches_every_response
    (query : string) (now resumed : Z) (w : World) (parsed : Json) :
  let key := suggestionsKey query in
  let request := SuggestionsRequest query in
  let out := getLocationSuggestions gemini query now resumed w in
  aiCalls (snd out) = aiCalls w ++ [request] ->
  gemini (aiCalls w) request = AiJson parsed ->
  parsed <> JNull ->
  exists v,
    fst out = Normal v
    /\ truthy v = true
    /\ cache (snd out) !! key
       = Some {| value := v; expiry := resumed + CACHE_TTL |}
    /\ ((forall fields, parsed = JObj fields ->
           orElse (field "suggestions" fields) JNull = JNull) ->
        v = JArr []).
Proof.
  intros key request out Hsent Hout Hnn.
  destruct (Nat.ltb_spec (String.length (JS.trim query)) 3) as [H|H].
  { unfold out in Hsent. rewrite getLocationSuggestions_short in Hsent
      by exact H. now apply app_one_neq in Hsent. }
  destruct (getFromCache_cases key now w) as (cached & w0 & Hg & Ha & _).
  pose proof (getLocationSuggestions_readsThrough gemini query H now resumed
                w cached w0 Hg) as Hr.
  fold out in Hr. destruct (truthy cached).
  { rewrite Hr in Hsent. cbn [snd] in Hsent. rewrite Ha in Hsent.
    now apply app_one_neq in Hsent. }
  fold request in Hr. rewrite Ha, Hout in Hr.
  assert (Hs : exists v, suggestionsIn (AiJson parsed) = Some v
                 /\ ((forall fields, parsed = JObj fields ->
                        orElse (field "suggestions" fields) JNull = JNull) ->
                     v = JArr [])).
  { destruct parsed as [| | | | |fields];
      [congruence
      | eexists; split; [reflexivity | intros _; reflexivity] .. |].
    eexists. split; [reflexivity|]. intros Hf. specialize (Hf fields eq_refl).
    unfold orElse in *. destruct (field "suggestions" fields) as [s|];
      [|reflexivity].
    destruct (truthy s) eqn:Hts; [|reflexivity].
    subst s. discriminate. }
  destruct Hs as (v & Hs & Hempty). rewrite Hs in Hr. destruct Hr as [Ht Hr].
  exists v. rewrite Hr. cbn [fst snd]. split; [reflexivity|].
  split; [exact Ht|]. split; [|exact Hempty].
  destruct (setInCache_effect (suggestionsKey query) v resumed
              (asked request w0)) as (w1 & -> & Hc & _).
  cbn [snd]. rewrite Hc. apply lookup_insert_eq.
Qed.

End LookupsMore.

(** On a fresh page with the service up: the coordinates of "Paris" are
    fetched once and then served to "PARIS". *)
Lemma lookups_serve_from_cache_witness :
  JS.toLowerCase "PARIS" = JS.toLowerCase "Paris"
  /\ JS.trim "PARIS" <> EmptyString
  /\ GeminiService.geocodeLocation serviceUp "PARIS" 20 30
       (snd (GeminiService.geocodeLocation serviceUp "Paris" 0 10 freshWorld))
     = (GeminiService.Normal
          (GeminiService.JObj
             [("lat", GeminiService.JNum 48); ("lng", GeminiService.JNum 2)]),
        snd (GeminiService.geocodeLocation serviceUp "Paris" 0 10 freshWorld)).
Proof.
  assert (H1 : JS.toLowerCase "PARIS" = JS.toLowerCase "Paris")
    by reflexivity.
  assert (H2 : JS.trim "PARIS" <> EmptyString) by discriminate.
  split; [exact H1|]. split; [exact H2|].
  destruct (lookups_serve_from_cache serviceUp zeroFixed freshWorld)
    as (_ & _ & H).
  apply (H "Paris" "PARIS" H1 H2 0 10); [reflexivity | reflexivity |].
  unfold GeminiService.CACHE_TTL. lia.
Defined.

(** A response without suggestions is stored as the empty list. *)
Lemma getLocationSuggestions_caches_every_response_witness :
  exists v,
    fst (GeminiService.getLocationSuggestions serviceUp "par" 0 10 freshWorld)
    = GeminiService.Normal v
    /\ GeminiService.truthy v = true
    /\ GeminiService.cache
         (snd (GeminiService.getLocationSuggestions serviceUp "par" 0 10
                 freshWorld))
       !! GeminiService.suggestionsKey "par"
       = Some {| GeminiService.value := v;
                 GeminiService.expiry := 10 + GeminiService.CACHE_TTL |}
    /\ ((forall fields, GeminiService.JObj [] = GeminiService.JObj fields ->
           GeminiService.orElse (GeminiService.field "suggestions" fields)
             GeminiService.JNull = GeminiService.JNull) ->
        v = GeminiService.JArr []).
Proof.
  apply (getLocationSuggestions_caches_every_response serviceUp "par" 0 10
           freshWorld (GeminiService.JObj []));
    [reflexivity | reflexivity | discriminate].
Defined.

(** ** The feed filter *)
Section FeedMore.
Import Types Feed.

(** X6: the expiry stage keeps the order of the offers and removes exactly
    those whose [expiresAt] has three parts that [parseInt] reads and whose
    [Date] is a day before today or an Invalid Date; in particular it keeps
    every offer without [expiresAt]. *)
Theorem activeOffers_exact (today : Z) (offers : list Offer) :
  sublist (activeOffers today offers) offers
  /\ (forall offer,
        In offer (activeOffers today offers) <->
        In offer offers /\ ~ removedByExpiry today offer)
  /\ (forall offer,
        In offer offers -> expiresAt (base offer) = None ->
        In offer (activeOffers today offers)).
Proof.
  split; [apply filter_sublist|].
  assert (H : forall offer,
            isActive today offer = true <-> ~ removedByExpiry today offer).
  { intros offer. unfold removedByExpiry. rewrite <- isActive_false.
    destruct (isActive today offer); split; congruence. }
  split.
  - intros offer. unfold activeOffers. now rewrite List.filter_In, H.
  - intros offer Hin Hnone. unfold activeOffers. apply List.filter_In.
    split; [exact Hin|]. unfold isActive. now rewrite Hnone.
Qed.

(** X7: the feed filter works offer by offer: filtering two lists put end
    to end gives the two filtered lists put end to end, and filtering no
    offer gives none. *)
Theorem filteredOffers_app (st : FilterState) (offers more : list Offer) :
  filteredOffers st (offers ++ more)
  = filteredOffers st offers ++ filteredOffers st more
  /\ filteredOffers st [] = [].
Proof.
  rewrite !filteredOffers_filter. split; [apply List.filter_app|].
  reflexivity.
Qed.

Lemma isFilter_commute stage stage' offers :
  isFilter stage -> isFilter stage' ->
  stage (stage' offers) = stage' (stage offers).
Proof.
  intros [p Hp] [q Hq]. rewrite !Hp, !Hq, !filter_filter.
  apply List.filter_ext. intros x. apply andb_comm.
Qed.

Lemma stages_isFilter st : Forall isFilter (stages st).
Proof.
  repeat constructor.
  - now exists (isActive (today st)).
  - exists (typeKeeps (activeFilter st)). apply typeStage_filter.
  - exists (proximityKeeps (filterCenterPoint st)).
    apply proximityStage_filter.
  - exists (textKeeps (searchQuery st)). apply textStage_filter.
Qed.

Lemma applyAll_permutation order order' :
  Permutation order order' -> Forall isFilter order ->
  forall offers, applyAll order offers = applyAll order' offers.
Proof.
  unfold applyAll. induction 1 as [|s l l' Hp IH|s s' l|l l' l'' H1 IH1 H2 IH2];
    intros Hf offers.
  - reflexivity.
  - simpl. apply IH. now inversion Hf.
  - simpl. inversion Hf as [|? ? Hs' Hrest]; subst.
    inversion Hrest as [|? ? Hs _]; subst.
    now rewrite (isFilter_commute s s' offers).
  - rewrite IH1 by exact Hf. apply IH2.
    eapply Permutation_Forall; eassumption.
Qed.

(** X8: the order of the four stages does not matter: applied in any
    order they give the result of [filteredOffers]. *)
Theorem stage_order_irrelevant
    (st : FilterState) (order : list (list Offer -> list Offer))
    (offers : list Offer) :
  Permutation order (stages st) ->
  applyAll order offers = filteredOffers st offers.
Proof.
  intros Hp.
  rewrite (applyAll_permutation order (stages st) Hp).
  - reflexivity.
  - eapply Permutation_Forall; [symmetry; exact Hp | apply stages_isFilter].
Qed.

(** The text stage first and the expiry stage last. *)
Lemma stage_order_irrelevant_witness :
  let st := {| today := june1st2024; activeFilter := only JOB;
               filterCenterPoint := None; searchQuery := "acme" |} in
  Permutation (rev (stages st)) (stages st)
  /\ activeOffers (today st)
       (typeStage (activeFilter st)
          (proximityStage (filterCenterPoint st)
             (textStage (searchQuery st) [acmeJob; plainProduct])))
     = filteredOffers st [acmeJob; plainProduct].
Proof.
  intros st.
  assert (H : Permutation (rev (stages st)) (stages st))
    by (symmetry; apply Permutation_rev).
  split; [exact H|].
  exact (stage_order_irrelevant st (rev (stages st)) [acmeJob; plainProduct] H).
Defined.

End FeedMore.

Section TextMore.
Import Types Feed.

Lemma isEmpty_true_iff (s : string) :
  JS.isEmpty s = true <-> s = EmptyString.
Proof. destruct s; simpl; split; congruence. Qed.

Lemma lowerChar_isWhiteSpace (c : ascii) :
  JS.isWhiteSpace (JS.lowerChar c) = JS.isWhiteSpace c.
Proof. destruct c as [[] [] [] [] [] [] [] []]; reflexivity. Qed.

Lemma toLowerCase_allWhiteSpace (s : string) :
  allWhiteSpace (JS.toLowerCase s) <-> allWhiteSpace s.
Proof.
  induction s as [|c s IH]; simpl; [tauto|].
  now rewrite lowerChar_isWhiteSpace, IH.
Qed.

Lemma isEmpty_trim_lower (s : string) :
  JS.isEmpty (JS.trim (JS.toLowerCase s)) = JS.isEmpty (JS.trim s).
Proof.
  destruct (JS.isEmpty (JS.trim s)) eqn:H.
  - apply isEmpty_true_iff. apply trim_empty, toLowerCase_allWhiteSpace.
    apply trim_empty. now apply isEmpty_true_iff.
  - apply isEmpty_false. intros H'. apply isEmpty_false in H. apply H.
    apply trim_empty, toLowerCase_allWhiteSpace, trim_empty, H'.
Qed.

(** X9: the search ignores the letter case of the query: two queries with
    the same lower-case form keep the same offers. *)
Theorem textStage_ignores_query_case
    (query query' : string) (offers : list Offer) :
  JS.toLowerCase query = JS.toLowerCase query' ->
  textStage query offers = textStage query' offers.
Proof.
  intros H. unfold textStage.
  rewrite <- (isEmpty_trim_lower query), <- (isEmpty_trim_lower query').
  now rewrite H.
Qed.

Lemma textStage_ignores_query_case_witness :
  JS.toLowerCase "ACME" = JS.toLowerCase "acme"
  /\ textStage "ACME" [acmeJob; plainProduct]
     = textStage "acme" [acmeJob; plainProduct].
Proof.
  assert (H : JS.toLowerCase "ACME" = JS.toLowerCase "acme") by reflexivity.
  split; [exact H|].
  exact (textStage_ignores_query_case "ACME" "acme" [acmeJob; plainProduct] H).
Defined.

End TextMore.

(** ** The range of the haversine distance *)
Section DistanceMore.
Local Open Scope R_scope.






End DistanceMore.

(** ** Toasts *)
Section ToastFacts.
Import Toasts.

Lemma removeToast_ids i l :
  map id (removeToast i l) = List.filter (fun j => negb (j =? i)) (map id l).
Proof.
  unfold removeToast. induction l as [|t l IH]; simpl; [reflexivity|].
  destruct (id t =? i); simpl; now rewrite IH.
Qed.

Lemma toastStep_wellFormed st e :
  toastsWellFormed st -> toastsWellFormed (toastStep st e).
Proof.
  intros [Hn Hb]. destruct e as [options|i]; unfold toastsWellFormed, toastIds;
    simpl.
  - rewrite map_app. simpl. split.
    + apply NoDup_app. split; [exact Hn|]. split; [|apply NoDup_singleton].
      intros j Hj Hj'. apply list_elem_of_singleton in Hj'. subst j.
      rewrite Forall_forall in Hb. specialize (Hb _ Hj). lia.
    + apply Forall_app. split.
      * eapply Forall_impl; [exact Hb|]. simpl. intros j Hj. lia.
      * constructor; [lia | constructor].
  - rewrite removeToast_ids. split.
    + apply NoDup_ListNoDup, List.NoDup_filter, NoDup_ListNoDup, Hn.
    + apply Forall_forall. intros j Hj. rewrite Forall_forall in Hb.
      apply Hb. apply list_elem_of_In in Hj. apply List.filter_In in Hj.
      apply list_elem_of_In. apply Hj.
Qed.

Lemma afterEvents_wellFormed events : toastsWellFormed (afterEvents events).
Proof.
  unfold afterEvents.
  assert (H : forall st, toastsWellFormed st ->
                toastsWellFormed (fold_left toastStep events st)).
  { induction events as [|e events IH]; intros st Hst; simpl; [exact Hst|].
    apply IH, toastStep_wellFormed, Hst. }
  apply H. split; [constructor | constructor].
Qed.

Lemma removeToast_absent i l :
  i ∉ map id l -> removeToast i l = l.
Proof.
  unfold removeToast. induction l as [|t l IH]; simpl; intros H;
    [reflexivity|].
  apply not_elem_of_cons in H as [Hne Hl].
  destruct (Z.eqb_spec (id t) i) as [He|_]; [congruence|]. simpl.
  now rewrite IH.
Qed.

Lemma removeToast_split before t after :
  NoDup (map id (before ++ t :: after)) ->
  removeToast (id t) (before ++ t :: after) = before ++ after.
Proof.
  intros Hn. rewrite map_app in Hn. simpl in Hn.
  apply NoDup_app in Hn as (_ & Hdisj & Hn').
  apply NoDup_cons in Hn' as [Hafter _].
  unfold removeToast. rewrite List.filter_app. simpl.
  rewrite Z.eqb_refl. simpl.
  fold (removeToast (id t) before). fold (removeToast (id t) after).
  rewrite !removeToast_absent; [reflexivity | exact Hafter |].
  intros Hin. apply (Hdisj _ Hin). left.
Qed.

(** X11: toast ids are never reused while in use: after any sequence of
    toasts shown and removed, the ids on screen are pairwise distinct, so
    [removeToast] of the id of a toast removes that toast and no other,
    keeping the order of the rest, and [removeToast] of an id that is not
    in use (a timer that fires after its toast is gone) changes nothing. *)
Theorem removeToast_removes_exactly_one (events : list ToastEvent) :
  let st := afterEvents events in
  NoDup (toastIds st)
  /\ (forall before t after,
        toasts st = before ++ t :: after ->
        removeToast (id t) (toasts st) = before ++ after)
  /\ (forall i, i ∉ toastIds st -> removeToast i (toasts st) = toasts st).
Proof.
  intros st. destruct (afterEvents_wellFormed events) as [Hn _]. fold st in Hn.
  split; [exact Hn|]. split; [|intros i; apply removeToast_absent].
  intros before t after Hst. unfold toastIds in Hn. rewrite Hst in *.
  now apply removeToast_split.
Qed.

(** Three toasts, the second removed by its timer. *)
Lemma removeToast_removes_exactly_one_witness :
  let hello := {| opt_message := "Offer saved!"; opt_type := Some success;
                  opt_duration := None |} in
  let st := afterEvents [Shows hello; Shows hello; Shows hello] in
  toasts st
  = [{| id := 0; message := "Offer saved!"; type := success |}]
    ++ {| id := 1; message := "Offer saved!"; type := success |}
    :: [{| id := 2; message := "Offer saved!"; type := success |}]
  /\ removeToast 1 (toasts st)
     = [{| id := 0; message := "Offer saved!"; type := success |}]
       ++ [{| id := 2; message := "Offer saved!"; type := success |}].
Proof.
  intros hello st. split; [reflexivity|].
  destruct (removeToast_removes_exactly_one [Shows hello; Shows hello; Shows hello])
    as (_ & H & _).
  exact (H [{| id := 0; message := "Offer saved!"; type := success |}]
           {| id := 1; message := "Offer saved!"; type := success |}
           [{| id := 2; message := "Offer saved!"; type := success |}]
           eq_refl).
Defined.

(** X12: the [Toaster] shows the three oldest toasts: a new toast appears
    at once when fewer than three are waiting; otherwise it stays hidden,
    and with three waiting it appears, last, as soon as one of them is
    removed. *)
Theorem shownToasts_oldest_three (options : ToastOptions) (st : ToastState) :
  let new := {| id := toastCount st; message := opt_message options;
                type := default info (opt_type options) |} in
  (length (shownToasts st) <= 3)%nat
  /\ shownToasts (toast options st)
     = (if (length (toasts st) <? 3)%nat then shownToasts st ++ [new]
        else shownToasts st)
  /\ (forall i,
        toastsWellFormed st -> length (toasts st) = 3%nat ->
        i ∈ toastIds st ->
        shownToasts (dismiss i (toast options st))
        = removeToast i (toasts st) ++ [new]).
Proof.
  intros new. unfold shownToasts. simpl. fold new.
  split; [rewrite length_take; lia|]. split.
  - destruct (Nat.ltb_spec (length (toasts st)) 3) as [H|H].
    + rewrite !take_ge by (rewrite ?length_app; simpl; lia). reflexivity.
    + now rewrite take_app_le by lia.
  - intros i [Hn Hb] Hlen Hi. unfold toastIds in *.
    assert (Hnew : i <> toastCount st).
    { rewrite Forall_forall in Hb. specialize (Hb _ Hi). lia. }
    apply list_elem_of_fmap in Hi as (t & -> & Ht).
    apply list_elem_of_split in Ht as (before & after & Hst).
    rewrite Hst in *. unfold removeToast at 1. rewrite List.filter_app.
    fold (removeToast (id t) (before ++ t :: after)). simpl.
    destruct (Z.eqb_spec (toastCount st) (id t)) as [He|_]; [congruence|].
    simpl. rewrite removeToast_split by exact Hn.
    apply take_ge. rewrite !length_app in *. simpl in *. lia.
Qed.

Lemma shownToasts_oldest_three_witness :
  let hello := {| opt_message := "Offer saved!"; opt_type := None;
                  opt_duration := None |} in
  let st := afterEvents [Shows hello; Shows hello; Shows hello] in
  toastsWellFormed st
  /\ length (toasts st) = 3%nat
  /\ 0 ∈ toastIds st
  /\ shownToasts (toast hello st) = shownToasts st
  /\ map id (shownToasts (dismiss 0 (toast hello st))) = [1; 2; 3].
Proof.
  intros hello st.
  assert (Hw : toastsWellFormed st) by apply afterEvents_wellFormed.
  assert (Hl : length (toasts st) = 3%nat) by reflexivity.
  assert (Hi : 0 ∈ toastIds st) by (simpl; left).
  destruct (shownToasts_oldest_three hello st) as (_ & H2 & H3).
  split; [exact Hw|]. split; [exact Hl|]. split; [exact Hi|]. split.
  - exact H2.
  - now rewrite (H3 0 Hw Hl Hi).
Defined.

End ToastFacts.

(** ** The offers of the user *)
Section AppFacts.
Import Types App.

Lemma toggleSaveOffer_loggedIn offerId st :
  loggedIn st ->
  savedOfferIds (toggleSaveOffer offerId st)
  = (if decide (offerId ∈ savedOfferIds st)
     then savedOfferIds st ∖ {[offerId]}
     else savedOfferIds st ∪ {[offerId]})
  /\ offers (toggleSaveOffer offerId st) = offers st
  /\ currentUser (toggleSaveOffer offerId st) = currentUser st.
Proof.
  unfold loggedIn, toggleSaveOffer. intros H.
  destruct (currentUser st) as [u|] eqn:Hu; [|congruence].
  destruct (decide (offerId ∈ savedOfferIds st)); simpl; now rewrite ?Hu.
Qed.

Lemma toggled_elem (k x : string) (S : gset string) :
  x ∈ (if decide (k ∈ S) then S ∖ {[k]} else S ∪ {[k]})
  <-> (if String.eqb x k then k ∉ S else x ∈ S).
Proof.
  destruct (String.eqb_spec x k) as [->|Hne];
    destruct (decide (k ∈ S)) as [Hk|Hk];
    rewrite ?elem_of_union, ?elem_of_difference, ?elem_of_singleton;
    intuition congruence.
Qed.

(** X13: for a logged-in user [toggleSaveOffer] flips whether the offer is
    saved and nothing else: other ids stay as they are, the offers are
    untouched, and a second toggle restores the saved set.  Without a user
    the saved set does not change and the view goes to the account page. *)
Theorem toggleSaveOffer_flips (offerId : string) (st : AppState) :
  (loggedIn st ->
     (offerId ∈ savedOfferIds (toggleSaveOffer offerId st)
      <-> offerId ∉ savedOfferIds st)
     /\ (forall other, other <> offerId ->
           (other ∈ savedOfferIds (toggleSaveOffer offerId st)
            <-> other ∈ savedOfferIds st))
     /\ savedOfferIds (toggleSaveOffer offerId (toggleSaveOffer offerId st))
        = savedOfferIds st
     /\ offers (toggleSaveOffer offerId st) = offers st)
  /\ (currentUser st = None ->
        savedOfferIds (toggleSaveOffer offerId st) = savedOfferIds st
        /\ offers (toggleSaveOffer offerId st) = offers st
        /\ currentView (toggleSaveOffer offerId st) = PROFILE).
Proof.
  split.
  - intros Hin.
    destruct (toggleSaveOffer_loggedIn offerId st Hin) as (Hs & Ho & Hu).
    assert (Hin' : loggedIn (toggleSaveOffer offerId st))
      by (unfold loggedIn; now rewrite Hu).
    destruct (toggleSaveOffer_loggedIn offerId _ Hin') as (Hs' & _ & _).
    split; [|split; [|split; [|exact Ho]]].
    + rewrite Hs, toggled_elem. now rewrite String.eqb_refl.
    + intros other Hne. rewrite Hs, toggled_elem.
      apply String.eqb_neq in Hne. now rewrite Hne.
    + apply set_eq. intros x. rewrite Hs', toggled_elem, Hs.
      destruct (String.eqb_spec x offerId) as [->|Hne].
      * rewrite toggled_elem, String.eqb_refl.
        destruct (decide (offerId ∈ savedOfferIds st)); tauto.
      * rewrite toggled_elem. apply String.eqb_neq in Hne. now rewrite Hne.
  - intros Hnone. unfold toggleSaveOffer. rewrite Hnone. now simpl.
Qed.

Lemma toggleSaveOffer_flips_witness :
  loggedIn (appWith (Some someUser) [acmeJob])
  /\ "1" ∈ savedOfferIds
            (toggleSaveOffer "1" (appWith (Some someUser) [acmeJob]))
  /\ savedOfferIds (toggleSaveOffer "1" (appWith None [acmeJob])) = ∅.
Proof.
  assert (H : loggedIn (appWith (Some someUser) [acmeJob])) by discriminate.
  split; [exact H|].
  destruct (toggleSaveOffer_flips "1" (appWith (Some someUser) [acmeJob]))
    as [Hin _].
  destruct (toggleSaveOffer_flips "1" (appWith None [acmeJob])) as [_ Hout].
  split.
  - destruct (Hin H) as [Hflip _]. apply Hflip. simpl.
    apply not_elem_of_empty.
  - apply (Hout eq_refl).
Defined.

(** X14: the saved offers are offers of the user, in the order of the
    feed; after a toggle by a logged-in user they are the offers that
    were saved before, without the toggled one if it was saved and with
    it if it was not. *)
Theorem savedOffers_after_toggle (offerId : string) (st : AppState) :
  sublist (savedOffers st) (offers st)
  /\ (loggedIn st ->
      forall offer,
        In offer (savedOffers (toggleSaveOffer offerId st)) <->
        In offer (offers st)
        /\ (if String.eqb (id (base offer)) offerId
            then offerId ∉ savedOfferIds st
            else id (base offer) ∈ savedOfferIds st)).
Proof.
  split; [apply filter_sublist|]. intros Hin offer.
  destruct (toggleSaveOffer_loggedIn offerId st Hin) as (Hs & Ho & _).
  unfold savedOffers.
  now rewrite List.filter_In, bool_decide_eq_true, Hs, Ho, toggled_elem.
Qed.

Lemma savedOffers_after_toggle_witness :
  loggedIn (appWith (Some someUser) [acmeJob; plainProduct])
  /\ In plainProduct
       (savedOffers
          (toggleSaveOffer "2"
             (appWith (Some someUser) [acmeJob; plainProduct]))).
Proof.
  assert (H : loggedIn (appWith (Some someUser) [acmeJob; plainProduct]))
    by discriminate.
  split; [exact H|].
  pose proof (savedOffers_after_toggle "2"
                (appWith (Some someUser) [acmeJob; plainProduct])) as [_ Hw].
  apply (Hw H plainProduct). split; [right; left; reflexivity|].
  simpl. apply not_elem_of_empty.
Defined.

Lemma numberToString_inj (n m : Z) :
  JSMore.numberToString n = JSMore.numberToString m -> n = m.
Proof.
  unfold JSMore.numberToString. intros H. apply DecimalZ.to_int_inj.
  apply (f_equal DecimalString.NilEmpty.int_of_string) in H.
  rewrite !DecimalString.NilEmpty.isi in H. congruence.
Qed.

Lemma append_inj_l (p a b : string) : p +:+ a = p +:+ b -> a = b.
Proof.
  induction p as [|c p IH]; [trivial|]. rewrite !append_cons.
  intros [= H]. now apply IH.
Qed.

Lemma offerId_inj (t t' : Z) : offerId t = offerId t' -> t = t'.
Proof.
  unfold offerId. intros H. apply append_inj_l in H.
  now apply numberToString_inj.
Qed.

Lemma identified_id i s c data : id (base (identified i s c data)) = i.
Proof. now destruct data. Qed.

(** X15: [addOffer] by a logged-in user puts the new offer first and keeps
    the others in their order; the new offer carries the data of the form
    under the id made of the time, so that offers added at different
    milliseconds have different ids.  Without a user the offers do not
    change. *)
Theorem addOffer_prepends
    (data data' : Offer) (now now' : Z) (iso iso' : string) (drawn drawn' : Z)
    (st : AppState) :
  (loggedIn st ->
     offers (addOffer data now iso drawn st)
     = identified (offerId now) iso drawn data :: offers st
     /\ type (identified (offerId now) iso drawn data) = type data
     /\ Feed.getOfferTitle (identified (offerId now) iso drawn data)
        = Feed.getOfferTitle data
     /\ currentView (addOffer data now iso drawn st) = FEED
     /\ savedOfferIds (addOffer data now iso drawn st) = savedOfferIds st
     /\ (now <> now' ->
         exists first second,
           offers (addOffer data' now' iso' drawn'
                     (addOffer data now iso drawn st))
           = second :: first :: offers st
           /\ id (base second) <> id (base first)))
  /\ (currentUser st = None ->
        offers (addOffer data now iso drawn st) = offers st
        /\ currentView (addOffer data now iso drawn st) = PROFILE).
Proof.
  unfold loggedIn, addOffer. split.
  - intros H. destruct (currentUser st) as [u|] eqn:Hu; [|congruence].
    simpl. rewrite ?Hu. simpl.
    split; [reflexivity|]. split; [now destruct data|].
    split; [now destruct data|]. split; [reflexivity|].
    split; [reflexivity|]. intros Hne. eexists _, _. split; [reflexivity|].
    rewrite !identified_id. intros Heq. apply offerId_inj in Heq. congruence.
  - intros Hnone. rewrite Hnone. now simpl.
Qed.

Lemma addOffer_prepends_witness :
  loggedIn (appWith (Some someUser) [plainProduct])
  /\ map (fun offer => id (base offer))
       (offers (addOffer acmeJob 1718000000000 "2024-06-10T06:13:20.000Z" 7
                  (appWith (Some someUser) [plainProduct])))
     = ["offer-1718000000000"; "2"]
  /\ offers (addOffer acmeJob 1718000000000 "2024-06-10T06:13:20.000Z" 7
               (appWith None [plainProduct]))
     = [plainProduct].
Proof.
  assert (H : loggedIn (appWith (Some someUser) [plainProduct]))
    by discriminate.
  split; [exact H|].
  destruct (addOffer_prepends acmeJob acmeJob 1718000000000 0
              "2024-06-10T06:13:20.000Z" "" 7 0
              (appWith (Some someUser) [plainProduct])) as [Hin _].
  destruct (addOffer_prepends acmeJob acmeJob 1718000000000 0
              "2024-06-10T06:13:20.000Z" "" 7 0
              (appWith None [plainProduct])) as [_ Hout].
  split.
  - destruct (Hin H) as (-> & _). reflexivity.
  - apply (Hout eq_refl).
Defined.

End AppFacts.

(** ** The offer card *)
Section CardFacts.
Import Types.










Lemma append_nil_r (s : string) : s +:+ EmptyString = s.
Proof.
  induction s as [|c r IH]; [reflexivity|]. now rewrite append_cons, IH.
Qed.

Lemma isSubstringOf_refl (s : string) : isSubstringOf s s.
Proof. exists EmptyString, EmptyString. now rewrite append_nil_r. Qed.

Lemma isSubstringOf_app_l (q a b : string) :
  isSubstringOf q a -> isSubstringOf q (a +:+ b).
Proof.
  intros (pre & post & ->). exists pre, (post +:+ b).
  now rewrite !append_assoc.
Qed.

Lemma isSubstringOf_app_r (q a b : string) :
  isSubstringOf q b -> isSubstringOf q (a +:+ b).
Proof.
  intros (pre & post & ->). exists (a +:+ pre), post.
  now rewrite !append_assoc.
Qed.

Lemma isSubstringOf_trans (q a b : string) :
  isSubstringOf q a -> isSubstringOf a b -> isSubstringOf q b.
Proof.
  intros Hq (pre & post & ->).
  apply isSubstringOf_app_r, isSubstringOf_app_l, Hq.
Qed.

Lemma isSubstringOf_lower (a b : string) :
  isSubstringOf a b -> isSubstringOf (JS.toLowerCase a) (JS.toLowerCase b).
Proof.
  intros (pre & post & ->). exists (JS.toLowerCase pre), (JS.toLowerCase post).
  now rewrite !toLowerCase_app.
Qed.

Lemma join_In (sep x : string) (xs : list string) :
  In x xs -> isSubstringOf x (JS.join sep xs).
Proof.
  induction xs as [|y rest IH]; [intros []|].
  intros [->|Hin].
  - destruct rest; [apply isSubstringOf_refl|].
    apply isSubstringOf_app_l, isSubstringOf_refl.
  - destruct rest as [|z rest']; [destruct Hin|].
    change (JS.join sep (y :: z :: rest'))
      with (y +:+ sep +:+ JS.join sep (z :: rest')).
    apply isSubstringOf_app_r, isSubstringOf_app_r, IH, Hin.
Qed.

Lemma truthyText_Some (s : option string) (x : string) :
  OfferCard.truthyText s = Some x -> s = Some x.
Proof.
  destruct s as [y|]; simpl; [|discriminate].
  destruct (JS.isEmpty y); [discriminate|]. now intros [= ->].
Qed.

Lemma fields_in_addressAndFields (offer : Offer) (s : string) :
  isSubstringOf s (typeSpecificFields offer) ->
  isSubstringOf s (addressAndFields offer).
Proof.
  unfold addressAndFields. destruct (location (base offer)); [|easy].
  intros H. now apply isSubstringOf_app_r, isSubstringOf_app_r.
Qed.

(** Every text the search looks at on the card is part of the title, of
    the summary or of the other details of the offer. *)
Lemma searchableTexts_covered (offer : Offer) (shown : string) :
  In shown (searchableTexts offer) ->
  isSubstringOf shown (Feed.getOfferTitle offer)
  \/ isSubstringOf shown (summary (base offer))
  \/ isSubstringOf shown (addressAndFields offer).
Proof.
  unfold searchableTexts. cbn [OfferCard.cardFront OfferCard.front_title
    OfferCard.front_summary OfferCard.front_subtitle OfferCard.front_location
    OfferCard.front_tags].
  rewrite !in_app_iff. intros [Hin|[Hin|[Hin|Hin]]].
  - destruct Hin as [<-|[<-|[]]].
    + left. destruct offer; apply isSubstringOf_refl.
    + right; left. apply isSubstringOf_refl.
  - right; right.
    destruct (OfferCard.truthyText _) as [s|] eqn:Hs; [|destruct Hin].
    destruct Hin as [<-|[]]. apply truthyText_Some in Hs.
    apply fields_in_addressAndFields.
    destruct offer as [o|o|o]; cbn in Hs |- *.
    + injection Hs as <-. apply isSubstringOf_app_l, isSubstringOf_refl.
    + rewrite Hs. apply isSubstringOf_refl.
    + rewrite Hs. apply isSubstringOf_refl.
  - right; right.
    destruct (OfferCard.truthyText _) as [s|] eqn:Hs; [|destruct Hin].
    destruct Hin as [<-|[]]. apply truthyText_Some in Hs.
    assert (Hl : option_map address (location (base offer)) = Some s)
      by (destruct offer; exact Hs).
    unfold addressAndFields.
    destruct (location (base offer)) as [l|]; [|discriminate].
    injection Hl as <-. apply isSubstringOf_app_l, isSubstringOf_refl.
  - right; right. destruct offer as [o|o|o]; try destruct Hin.
    apply fields_in_addressAndFields. cbn.
    apply isSubstringOf_app_r, isSubstringOf_app_r, join_In.
    cbn in Hin. rewrite <- (firstn_skipn 4 (skills o)).
    apply in_or_app. now left.
Qed.

(** X17: what the card shows can be searched for.  A query that occurs,
    letter case apart, in the title, the summary, the subtitle or the
    location shown on the front of the card, or in one of the skill tags
    shown for a job, keeps the offer in the text stage. *)
Theorem shown_text_finds_offer
    (offer : Offer) (shown query : string) (offers : list Offer) :
  In shown (searchableTexts offer) ->
  isSubstringOf (JS.toLowerCase query) (JS.toLowerCase shown) ->
  In offer offers ->
  In offer (Feed.textStage query offers).
Proof.
  intros Hshown Hq Hin. rewrite textStage_filter, List.filter_In.
  split; [exact Hin|]. unfold textKeeps.
  destruct (JS.isEmpty (JS.trim query)); [reflexivity|].
  apply matchesQuery_spec. unfold textMatches.
  destruct (searchableTexts_covered offer shown Hshown) as [H|[H|H]];
    [left | right; left | right; right];
    (eapply isSubstringOf_trans; [exact Hq | apply isSubstringOf_lower, H]).
Qed.

Lemma shown_text_finds_offer_witness :
  In "prep" (searchableTexts acmeJob)
  /\ isSubstringOf (JS.toLowerCase "PRE") (JS.toLowerCase "prep")
  /\ In acmeJob [plainProduct; acmeJob]
  /\ In acmeJob (Feed.textStage "PRE" [plainProduct; acmeJob]).
Proof.
  assert (H1 : In "prep" (searchableTexts acmeJob))
    by (right; right; right; right; left; reflexivity).
  assert (H2 : isSubstringOf (JS.toLowerCase "PRE") (JS.toLowerCase "prep"))
    by (exists EmptyString, "p"; reflexivity).
  assert (H3 : In acmeJob [plainProduct; acmeJob])
    by (right; left; reflexivity).
  split; [exact H1|]. split; [exact H2|]. split; [exact H3|].
  exact (shown_text_finds_offer acmeJob "prep" "PRE"
           [plainProduct; acmeJob] H1 H2 H3).
Defined.

End CardFacts.

Section ApplicantFacts.
Import ApplicantIndicator.

(** X18: for a positive count the indicator shows the first
    [min(count, 3)] of its avatars, in their order, and the bubble of the
    remaining ones exactly when the count is above three; what the avatars
    and the bubble stand for adds up to the count. *)
Theorem applicants_add_up (count : Z) :
  1 <= count ->
  exists avatars more label,
    render count = Applicants avatars more label
    /\ avatars = take (Z.to_nat (Z.min count 3)) APPLICANT_INITIALS
    /\ Z.of_nat (length avatars) + default 0 more = count
    /\ (more = None <-> count <= 3).
Proof.
  intros Hc. unfold render.
  destruct (Z.eqb_spec count 0) as [->|_]; [lia|].
  do 3 eexists. split; [reflexivity|].
  destruct (Z.le_gt_cases count 3) as [Hle|Hgt].
  - rewrite Z.min_l by lia.
    replace (0 <? count - count) with false by (symmetry; apply Z.ltb_ge; lia).
    assert (Hcases : count = 1 \/ count = 2 \/ count = 3) by lia.
    destruct Hcases as [-> | [-> | ->]];
      (split; [reflexivity|]; split; [reflexivity|]; split; intros;
       [lia | reflexivity]).
  - rewrite Z.min_r by lia.
    replace (0 <? count - 3) with true by (symmetry; apply Z.ltb_lt; lia).
    split; [reflexivity|].
    split; [rewrite length_map, length_seq; simpl; lia|].
    split; [discriminate | lia].
Qed.

Lemma applicants_add_up_witness :
  1 <= 5
  /\ exists avatars more label,
       render 5 = Applicants avatars more label
       /\ avatars = take (Z.to_nat (Z.min 5 3)) APPLICANT_INITIALS
       /\ Z.of_nat (length avatars) + default 0 more = 5
       /\ (more = None <-> 5 <= 3).
Proof.
  assert (H : 1 <= 5) by lia.
  split; [exact H|]. exact (applicants_add_up 5 H).
Defined.

End ApplicantFacts.

Section FormFacts.
Import OfferForm.

Lemma setField_getField name name' items prev :
  items <> [] -> getField name' prev <> [] ->
  getField name' (setField name items prev) <> [].
Proof. destruct name, name'; simpl; auto. Qed.

Lemma assignIndex_nonempty index value items :
  items <> [] -> assignIndex index value items <> [].
Proof.
  intros Hl. unfold assignIndex.
  destruct (index <? 0); [exact Hl|].
  destruct (index <? Z.of_nat (length items)).
  - intros H. apply (f_equal length) in H.
    rewrite length_insert in H. now destruct items.
  - now destruct items.
Qed.

Lemma delete_length_ge {A} (i : nat) (l : list A) :
  (length l - 1 <= length (delete i l))%nat.
Proof.
  rewrite delete_take_drop, length_app, length_take, length_drop. lia.
Qed.

Lemma splice1_length index items :
  (length items - 1 <= length (splice1 index items))%nat.
Proof. unfold splice1. apply delete_length_ge. Qed.

Lemma scannedList_nonempty scanned : scannedList scanned <> [].
Proof.
  destruct scanned as [[|]|]; simpl; discriminate.
Qed.

Lemma formStep_nonempty prev e name :
  (forall name', getField name' prev <> []) ->
  getField name (formStep prev e) <> [].
Proof.
  intros Hprev. destruct e as [n i v|n|n i| |s r]; simpl.
  - apply setField_getField; [apply assignIndex_nonempty|]; apply Hprev.
  - apply setField_getField; [|apply Hprev].
    now destruct (getField n prev).
  - unfold removeArrayItem.
    destruct (Nat.leb_spec (length (getField n prev)) 1) as [|Hlen];
      [apply Hprev|].
    apply setField_getField; [|apply Hprev].
    intros H. apply (f_equal length) in H.
    pose proof (splice1_length i (getField n prev)) as Hs.
    rewrite H in Hs. simpl in Hs. lia.
  - destruct name; discriminate.
  - destruct name; apply scannedList_nonempty.
Qed.

(** X19: the form never runs out of rows: whatever the user changes, adds
    and removes in the skills and the responsibilities, at which positions
    ever, and whatever a scan fills in, each of the two lists keeps at least
    one entry. *)
Theorem form_lists_never_empty (events : list FormEvent) (name : ListField) :
  getField name (afterFormEvents events) <> [].
Proof.
  unfold afterFormEvents.
  assert (H : forall st, (forall name', getField name' st <> []) ->
                forall name', getField name' (fold_left formStep events st)
                              <> []).
  { induction events as [|e events IH]; intros st Hst name'; simpl.
    - apply Hst.
    - apply IH. intros n. now apply formStep_nonempty. }
  apply H. intros []; discriminate.
Qed.

End FormFacts.
